(** * ya-editor: markup-aware splitting and batch retry

    A shallow embedding of [src/ya_editor/_utils.py], [_const.py] and
    [_core.py], and the properties of the zone scanner, the chunk splitter,
    the backoff policy and the batch processor.

    Conventions.
    - A Python [str] that is indexed or measured is a list of code points
      ([Py.str]); [len] counts code points, as Python does.
    - Python integers are [Z]; indexing and slicing follow Python, negative
      indices included.
    - Exception messages are byte strings ([string]); only their
      concatenation matters. *)

From Stdlib Require Import ZArith NArith List String Ascii Bool Lia.
From Stdlib Require Import QArith Qminmax Qpower DecimalString.
Import ListNotations.
Open Scope Z_scope.

(** ** Python strings *)

Module Py.

Definition char := N.
Definition str := list char.

Definition of_string (s : string) : str :=
  map N_of_ascii (list_ascii_of_string s).

Definition len (t : str) : Z := Z.of_nat (List.length t).

(** [t[i]]: a negative index counts from the end; [None] is IndexError. *)
Definition index (t : str) (i : Z) : option char :=
  let j := if i <? 0 then i + len t else i in
  if (j <? 0) || (len t <=? j) then None else nth_error t (Z.to_nat j).

(** Normalisation of a slice bound against a length. *)
Definition clamp (n i : Z) : Z :=
  if i <? 0 then Z.max (i + n) 0 else Z.min i n.

(** [t[a:b]] *)
Definition slice (t : str) (a b : Z) : str :=
  let a' := clamp (len t) a in
  let b' := clamp (len t) b in
  firstn (Z.to_nat (b' - a')) (skipn (Z.to_nat a') t).

(** [t[a:]] *)
Definition slice_from (t : str) (a : Z) : str :=
  skipn (Z.to_nat (clamp (len t) a)) t.

(** [t.startswith(p)] *)
Fixpoint startswith (t p : str) : bool :=
  match p, t with
  | [], _ => true
  | _ :: _, [] => false
  | c :: p', d :: t' => N.eqb c d && startswith t' p'
  end.

(** Search of [sub] in the suffix [t] of a text, [pos] being the position
    of the head of [t] in that text. *)
Fixpoint find_from (t sub : str) (pos : Z) : Z :=
  if startswith t sub then pos
  else match t with
       | [] => -1
       | _ :: t' => find_from t' sub (pos + 1)
       end.

(** [t.find(sub, start)]: lowest index at or after [start] where [sub]
    occurs, [-1] when there is none. *)
Definition find (t sub : str) (start : Z) : Z :=
  let s := if start <? 0 then Z.max (start + len t) 0 else start in
  if len t <? s then -1 else find_from (skipn (Z.to_nat s) t) sub s.

(** [t[i] == c], for an index the caller has checked to be in range. *)
Definition is_char (t : str) (i : Z) (c : char) : bool :=
  match index t i with
  | Some d => N.eqb d c
  | None => false
  end.

End Py.

Abbreviation str := Py.str.
Abbreviation len := Py.len.

(** The characters the code looks at. *)
Definition backslash : Py.char := Eval cbv in N_of_ascii "\"%char.
Definition backtick : Py.char := Eval cbv in N_of_ascii "`"%char.
Definition lbracket : Py.char := Eval cbv in N_of_ascii "["%char.
Definition rbracket : Py.char := Eval cbv in N_of_ascii "]"%char.
Definition lparen : Py.char := Eval cbv in N_of_ascii "("%char.
Definition rparen : Py.char := Eval cbv in N_of_ascii ")"%char.
Definition star : Py.char := Eval cbv in N_of_ascii "*"%char.
Definition underscore : Py.char := Eval cbv in N_of_ascii "_"%char.
Definition tilde : Py.char := Eval cbv in N_of_ascii "~"%char.
Definition pipe : Py.char := Eval cbv in N_of_ascii "|"%char.
Definition space : Py.char := Eval cbv in N_of_ascii " "%char.
Definition newline : Py.char := 10%N.

Definition fence : str := [backtick; backtick; backtick].

(** ** _utils.py: the zone scanner *)

Record _ProtectedZone := mkZone {
  start : Z;
  end_ : Z;
  open_tag : str;
  close_tag : str;
  require_newline : bool;
  atomic : bool
}.

(** The [for] loop of [_is_escaped]: the number of consecutive backslashes
    at positions [k-1], [k-2], ... *)
Fixpoint count_backslashes (text : str) (k : nat) : nat :=
  match k with
  | O => O
  | S k' =>
      match nth_error text k' with
      | Some c => if N.eqb c backslash then S (count_backslashes text k') else O
      | None => O
      end
  end.

(** [_is_escaped(text, index)].  Python raises IndexError when
    [index > len(text)]; every call of the module passes a position below
    the length (or a negative one, for which the range is empty). *)
Definition _is_escaped (text : str) (index : Z) : bool :=
  Nat.odd (count_backslashes text (Z.to_nat index)).

(** The [while True] loop of [_find_closing_tag], with the number of
    iterations bounded by [fuel]. *)
Fixpoint find_closing_loop (fuel : nat) (text : str) (search_pos : Z)
    (tag : str) : option Z :=
  match fuel with
  | O => None
  | S fuel' =>
      let idx := Py.find text tag search_pos in
      if idx =? -1 then Some (-1)
      else if negb (_is_escaped text idx) then Some (idx + len tag)
      else find_closing_loop fuel' text (idx + 1) tag
  end.

(** [_find_closing_tag(text, start_pos, tag)]: the position after the next
    unescaped [tag], or [-1].  The search position grows at every
    iteration, so [len(text) + 1] iterations are enough
    (see [find_closing_loop_total]). *)
Definition _find_closing_tag (text : str) (start_pos : Z) (tag : str) : Z :=
  match find_closing_loop (S (List.length text)) text start_pos tag with
  | Some r => r
  | None => -1
  end.

(** The opening tag of a fenced block: its first line, or the bare fence. *)
Definition fence_open_tag (text : str) (start_ end' : Z) : str :=
  let newline_idx := Py.find (Py.slice text start_ end') [newline] 0 in
  if newline_idx =? -1 then fence
  else Py.slice text start_ (start_ + newline_idx).

(** The marker selected by the [if char == ...] chain; empty when the
    character is no marker. *)
Definition marker_at (text : str) (i : Z) : str :=
  let n := len text in
  if Py.is_char text i star then [star]
  else if Py.is_char text i underscore then
    if (i + 1 <? n) && Py.is_char text (i + 1) underscore
    then [underscore; underscore] else [underscore]
  else if Py.is_char text i tilde then [tilde]
  else if Py.is_char text i pipe && (i + 1 <? n) && Py.is_char text (i + 1) pipe
  then [pipe; pipe]
  else [].

(** The four attempts of one iteration, in the order of the source; each
    gives the zone it appends, if any.  The search of the closing fence is
    written in the source as a copy of the loop of [_find_closing_tag]. *)
Definition try_fence (text : str) (i : Z) : option _ProtectedZone :=
  if Py.startswith (Py.slice_from text i) fence then
    let e := _find_closing_tag text (i + 3) fence in
    if e =? -1 then None
    else Some (mkZone i e (fence_open_tag text i e) fence true false)
  else None.

Definition try_inline (text : str) (i : Z) : option _ProtectedZone :=
  if Py.is_char text i backtick then
    let e := _find_closing_tag text (i + 1) [backtick] in
    if e =? -1 then None
    else Some (mkZone i e [backtick] [backtick] false true)
  else None.

Definition try_link (text : str) (i : Z) : option _ProtectedZone :=
  if Py.is_char text i lbracket then
    let text_end := _find_closing_tag text (i + 1) [rbracket] in
    if negb (text_end =? -1) && (text_end <? len text)
       && Py.is_char text text_end lparen then
      let url_end := _find_closing_tag text (text_end + 1) [rparen] in
      if url_end =? -1 then None
      else Some (mkZone i url_end [] [] false true)
    else None
  else None.

Definition try_marker (text : str) (i : Z) : option _ProtectedZone :=
  let tag := marker_at text i in
  match tag with
  | [] => None
  | _ =>
      let e := _find_closing_tag text (i + len tag) tag in
      if e =? -1 then None
      else Some (mkZone i e tag tag false false)
  end.

(** One iteration of the [while i < n] loop of [_find_zones], at position
    [i]: the zone appended (if any) and the next value of [i]. *)
Definition scan_step (text : str) (i : Z) : option _ProtectedZone * Z :=
  if Py.is_char text i backslash then (None, i + 2)
  else
    match try_fence text i with
    | Some z => (Some z, end_ z)
    | None =>
    match try_inline text i with
    | Some z => (Some z, end_ z)
    | None =>
    match try_link text i with
    | Some z => (Some z, end_ z)
    | None =>
    match try_marker text i with
    | Some z => (Some z, end_ z)
    | None => (None, i + 1)
    end end end end.

(** The loop, from position [i] with the zones found so far. *)
Fixpoint find_zones_loop (fuel : nat) (text : str) (i : Z)
    (zones : list _ProtectedZone) : option (list _ProtectedZone) :=
  if i <? len text then
    match fuel with
    | O => None
    | S fuel' =>
        match scan_step text i with
        | (Some z, i') => find_zones_loop fuel' text i' (zones ++ [z])
        | (None, i') => find_zones_loop fuel' text i' zones
        end
    end
  else Some zones.

(** [_find_zones(text)].  [i] grows at every iteration, so [len(text)]
    iterations are enough (see [find_zones_loop_total]). *)
Definition _find_zones (text : str) : list _ProtectedZone :=
  match find_zones_loop (List.length text) text 0 [] with
  | Some zones => zones
  | None => []
  end.

(** ** Exceptions *)

(** The exception classes that occur: the two of [_const.py], the
    built-in ones the code can raise, any other subclass of [Exception],
    and the classes that derive from [BaseException] only
    (KeyboardInterrupt, asyncio.CancelledError), which [except Exception]
    does not catch. *)
Inductive exc_class :=
| YandexAPIError
| YandexRequestError
| ValueError
| RuntimeError
| TypeError
| IndexError
| OverflowError
| OtherException (name : string)
| NonException (name : string).

Record exn := mkExn { exn_class : exc_class; exn_msg : string }.

Inductive result (A : Type) :=
| Ok (a : A)
| Raise (e : exn).
Arguments Ok {A} a.
Arguments Raise {A} e.

Definition index_error : exn := mkExn IndexError "string index out of range".

(** ** _utils.py: the chunk splitter *)

(** A chunk as it is assembled: [pending_prefix + chunk_text + suffix],
    with the bounds of the slice that gave [chunk_text]. *)
Record piece := mkPiece {
  p_prefix : str;
  p_from : Z;
  p_to : Z;
  p_raw : str;
  p_suffix : str
}.

Definition render (p : piece) : str := p_prefix p ++ p_raw p ++ p_suffix p.

(** The [while] loop that walks the split position back over a trailing
    unescaped backslash; [k] bounds [split_pos - current_pos]. *)
Fixpoint walk_back (k : nat) (text : str) (current_pos split_pos : Z)
    : result Z :=
  match k with
  | O => Ok split_pos
  | S k' =>
      if split_pos >? current_pos then
        match Py.index text (split_pos - 1) with
        | None => Raise index_error
        | Some c =>
            if N.eqb c backslash && negb (_is_escaped text (split_pos - 1))
            then walk_back k' text current_pos (split_pos - 1)
            else Ok split_pos
        end
      else Ok split_pos
  end.

(** The [for i in range(split_pos, search_back_limit, -1)] loop, with [k]
    iterations left: the values of [best_split] and [found_nice_split]. *)
Fixpoint lookback (k : nat) (text : str) (i best_split : Z)
    (found_nice_split : bool) : result (Z * bool) :=
  match k with
  | O => Ok (best_split, found_nice_split)
  | S k' =>
      match Py.index text (i - 1) with
      | None => Raise index_error
      | Some c =>
          if N.eqb c backslash && negb (_is_escaped text (i - 1))
          then lookback k' text (i - 1) best_split found_nice_split
          else if N.eqb c newline then Ok (i, true)
          else if N.eqb c space && negb found_nice_split
          then lookback k' text (i - 1) i true
          else lookback k' text (i - 1) best_split found_nice_split
      end
  end.

(** The [for z in zones] search. *)
Definition active_zone_at (zones : list _ProtectedZone) (split_pos : Z)
    : option _ProtectedZone :=
  List.find (fun z => (start z <? split_pos) && (split_pos <? end_ z)) zones.

Definition effective_max_of (max_length : Z) (pending_prefix : str) : Z :=
  let effective_max := max_length - len pending_prefix in
  if effective_max <=? 0 then 100 else effective_max.

(** The adjustment of the split position to the active zone: the new
    split position, [suffix] and [next_prefix]. *)
Definition adjust_to_zone (active_zone : option _ProtectedZone)
    (current_pos effective_max split_pos : Z) : Z * str * str :=
  match active_zone with
  | None => (split_pos, [], [])
  | Some z =>
      if atomic z then
        if start z >? current_pos then (start z, [], [])
        else (split_pos, [], [])
      else
        let suffix :=
          if require_newline z then newline :: close_tag z else close_tag z in
        let next_prefix :=
          if require_newline z then open_tag z ++ [newline] else open_tag z in
        if split_pos + len suffix >? current_pos + effective_max
        then (split_pos - len suffix, suffix, next_prefix)
        else (split_pos, suffix, next_prefix)
  end.

Inductive step_out :=
| Final (p : piece)
| Next (p : piece) (current_pos : Z) (pending_prefix : str).

(** One iteration of the [while current_pos < text_len] loop. *)
Definition split_step (text : str) (zones : list _ProtectedZone)
    (max_length current_pos : Z) (pending_prefix : str) : result step_out :=
  let text_len := len text in
  let effective_max := effective_max_of max_length pending_prefix in
  if text_len - current_pos <=? effective_max then
    Ok (Final (mkPiece pending_prefix current_pos text_len
                       (Py.slice_from text current_pos) []))
  else
    let split_pos := current_pos + effective_max in
    match walk_back (Z.to_nat (split_pos - current_pos)) text current_pos
                    split_pos with
    | Raise e => Raise e
    | Ok split_pos =>
        let '(split_pos, suffix, next_prefix) :=
          adjust_to_zone (active_zone_at zones split_pos)
                         current_pos effective_max split_pos in
        let search_back_limit := Z.max (split_pos - 150) current_pos in
        match lookback (Z.to_nat (split_pos - search_back_limit)) text
                       split_pos split_pos false with
        | Raise e => Raise e
        | Ok (best_split, found_nice_split) =>
            let split_pos := if found_nice_split then best_split else split_pos in
            Ok (Next (mkPiece pending_prefix current_pos split_pos
                              (Py.slice text current_pos split_pos) suffix)
                     split_pos next_prefix)
        end
    end.

(** The loop with at most [fuel] iterations; [None] when it is still
    running after them. *)
Fixpoint split_loop (fuel : nat) (text : str) (zones : list _ProtectedZone)
    (max_length current_pos : Z) (pending_prefix : str) (chunks : list piece)
    : option (result (list piece)) :=
  if current_pos <? len text then
    match fuel with
    | O => None
    | S fuel' =>
        match split_step text zones max_length current_pos pending_prefix with
        | Raise e => Some (Raise e)
        | Ok (Final p) => Some (Ok (chunks ++ [p]))
        | Ok (Next p current_pos' pending_prefix') =>
            split_loop fuel' text zones max_length current_pos'
                       pending_prefix' (chunks ++ [p])
        end
    end
  else Some (Ok chunks).

(** [_smart_split(text, max_length)], as assembled pieces. *)
Definition split_pieces (fuel : nat) (text : str) (max_length : Z)
    : option (result (list piece)) :=
  let max_length := if max_length <=? 0 then 4096 else max_length in
  split_loop fuel text (_find_zones text) max_length 0 [] [].

(** [_smart_split(text, max_length)]: the chunks.  The [lru_cache] around
    it memoizes a pure function and is left out. *)
Definition _smart_split (fuel : nat) (text : str) (max_length : Z)
    : option (result (list str)) :=
  match split_pieces fuel text max_length with
  | None => None
  | Some (Raise e) => Some (Raise e)
  | Some (Ok ps) => Some (Ok (map render ps))
  end.

(** ** _const.py and the backoff policy *)

Definition _MAX_RETRIES : Z := 3.

(** The delays are binary64 floats.  Every value the policy computes is a
    power of two (times 1.0 or 2.0) or one of the caps, hence exact, and
    is written as a rational.  The one float operation that can fail is
    the power: [2.0 ** n] raises OverflowError from [n = 1024] on.
    [2.0 * 2.0 ** 1023] is [inf], and [min(inf, cap)] is the cap, as is
    the minimum of the exact product and the cap. *)
Record retry_config := mkConfig { base_delay : Q; max_delay : Q }.

Definition _BACKOFF_FACTOR : Q := 2.

(** [_RETRY_CONFIG.get(type(exception), _DEFAULT_RETRY_CONFIG)] *)
Definition _DEFAULT_RETRY_CONFIG : retry_config := mkConfig 1 15.

Definition _RETRY_CONFIG (c : exc_class) : option retry_config :=
  match c with
  | YandexAPIError => Some (mkConfig 1 10)
  | YandexRequestError => Some (mkConfig 2 30)
  | _ => None
  end.

Definition retry_config_of (c : exc_class) : retry_config :=
  match _RETRY_CONFIG c with
  | Some config => config
  | None => _DEFAULT_RETRY_CONFIG
  end.

Definition overflow_error : exn :=
  mkExn OverflowError "(34, 'Numerical result out of range')".

(** [_BACKOFF_FACTOR ** attempt] for the float 2.0 and an integer
    exponent: exact down to the smallest subnormal [2 ** -1074], zero
    below it, OverflowError from [2 ** 1024] on. *)
Definition backoff_pow (attempt : Z) : result Q :=
  if 1024 <=? attempt then Raise overflow_error
  else if attempt <? -1074 then Ok 0%Q
  else Ok (Qpower _BACKOFF_FACTOR attempt).

(** Python's [min(a, b)]: [b] when [b < a], otherwise [a]. *)
Definition py_min (a b : Q) : Q := if Qle_bool a b then a else b.

(** [type(exception).__name__] *)
Definition class_name (c : exc_class) : string :=
  match c with
  | YandexAPIError => "YandexAPIError"
  | YandexRequestError => "YandexRequestError"
  | ValueError => "ValueError"
  | RuntimeError => "RuntimeError"
  | TypeError => "TypeError"
  | IndexError => "IndexError"
  | OverflowError => "OverflowError"
  | OtherException name => name
  | NonException name => name
  end.

(** [error_delay(exception, attempt)] *)
Definition error_delay (exception : exn) (attempt : Z) : result (Q * string) :=
  let config := retry_config_of (exn_class exception) in
  match backoff_pow attempt with
  | Raise e => Raise e
  | Ok p =>
      Ok (py_min (base_delay config * p) (max_delay config),
          class_name (exn_class exception))
  end.

(** ** _core.py: retry of one chunk and the batch *)

(** [except (YandexAPIError, YandexRequestError)] *)
Definition recognized (c : exc_class) : bool :=
  match c with
  | YandexAPIError | YandexRequestError => true
  | _ => false
  end.

Definition lf : string := String (ascii_of_nat 10) EmptyString.
Definition dquote : string := String (ascii_of_nat 34) EmptyString.

Definition decimal (n : nat) : string :=
  NilEmpty.string_of_uint (Nat.to_uint n).

Section Batch.

(** The transform of a chunk ([_yandex_translate] or [_yandex_editor_api]
    on the shared client) is a call to the outside, [remote_call]: [World]
    is the state of everything it depends on, [A] the type of what it
    returns. *)
Variable World : Type.
Variable A : Type.
Variable remote_call : str -> World -> result A * World.

(** [''.join(result_chunks)] *)
Variable join : list A -> result string.

(** The words of the progress note: "было переведено" in the translation
    batch, "было обработано" in the editor batch. *)
Variable progress_words : string.

(** The state threaded through a batch: the outside world and the delays
    slept so far, oldest first.  The optional logger only prints and is
    left out. *)
Definition state : Type := World * list Q.

(** The [for attempt in range(max_retries)] loop of
    [_translate_chunk_with_retry] and [_editor_chunk_with_retry], with [k]
    iterations left, followed by [raise last_exception]. *)
Fixpoint retry_loop (k : nat) (chunk : str) (max_retries attempt : Z)
    (last_exception : option exn) (st : state) : result A * state :=
  match k with
  | O =>
      match last_exception with
      | Some e => (Raise e, st)
      | None =>
          (Raise (mkExn TypeError "exceptions must derive from BaseException"),
           st)
      end
  | S k' =>
      match remote_call chunk (fst st) with
      | (Ok r, w) => (Ok r, (w, snd st))
      | (Raise e, w) =>
          if recognized (exn_class e) then
            match error_delay e attempt with
            | Raise e' => (Raise e', (w, snd st))
            | Ok (delay, _) =>
                if attempt <? max_retries - 1
                then retry_loop k' chunk max_retries (attempt + 1) (Some e)
                                (w, snd st ++ [delay])
                else retry_loop k' chunk max_retries (attempt + 1) (Some e)
                                (w, snd st)
            end
          else (Raise e, (w, snd st))
      end
  end.

Definition chunk_with_retry (chunk : str) (max_retries : Z) (st : state)
    : result A * state :=
  retry_loop (Z.to_nat max_retries) chunk max_retries 0 None st.

(** The message of the error the batch raises in place of [e]. *)
Definition progress_note (e : exn) (done total : nat) : exn :=
  mkExn (exn_class e)
        (exn_msg e ++ lf ++ "[" ++ progress_words ++ " " ++ decimal done
           ++ "/" ++ decimal total ++ " чанков]").

(** The [for chunk_index, chunk in enumerate(input_chunks)] loop. *)
Fixpoint batch_loop (chunks : list str) (max_retries : Z) (total_chunks : nat)
    (result_chunks : list A) (st : state) : result (list A) * state :=
  match chunks with
  | [] => (Ok result_chunks, st)
  | chunk :: rest =>
      match chunk_with_retry chunk max_retries st with
      | (Ok r, st') =>
          batch_loop rest max_retries total_chunks (result_chunks ++ [r]) st'
      | (Raise e, st') =>
          if recognized (exn_class e)
          then (Raise (progress_note e (List.length result_chunks) total_chunks),
                st')
          else (Raise e, st')
      end
  end.

(** The batch on the chunks the splitter gave. *)
Definition run_batch (input_chunks : list str) (max_retries : Z) (st : state)
    : result string * state :=
  match batch_loop input_chunks max_retries (List.length input_chunks) [] st with
  | (Ok result_chunks, st') => (join result_chunks, st')
  | (Raise e, st') => (Raise e, st')
  end.

(** [_yandex_translate_batch] and [_yandex_editor_batch]; [None] when the
    splitter is still running after [fuel] iterations. *)
Definition _yandex_batch (fuel : nat) (input_text : str) (max_retries : Z)
    (st : state) : option (result string * state) :=
  match _smart_split fuel input_text 10000 with
  | None => None
  | Some (Raise e) => Some (Raise e, st)
  | Some (Ok input_chunks) => Some (run_batch input_chunks max_retries st)
  end.

(** [k] calls in a row of the transform on [chunk], from the world [w],
    all fail with a recognized error; the last one raises [last] and
    leaves the world [w']. *)
Fixpoint exhausts (k : nat) (chunk : str) (w : World) (last : exn)
    (w' : World) : Prop :=
  match k with
  | O => False
  | S k' =>
      exists e w1,
        remote_call chunk w = (Raise e, w1)
        /\ recognized (exn_class e) = true
        /\ match k' with
           | O => e = last /\ w1 = w'
           | S _ => exhausts k' chunk w1 last w'
           end
  end.

(** The chunks are transformed one after the other, each within its
    retries, giving [results]. *)
Fixpoint transformed (chunks : list str) (max_retries : Z) (st : state)
    (results : list A) (st' : state) : Prop :=
  match chunks, results with
  | [], [] => st = st'
  | chunk :: chunks', r :: results' =>
      exists st1,
        chunk_with_retry chunk max_retries st = (Ok r, st1)
        /\ transformed chunks' max_retries st1 results' st'
  | _, _ => False
  end.

End Batch.

Arguments state World : clear implicits.
Arguments retry_loop {World A} remote_call k chunk max_retries attempt
  last_exception st.
Arguments chunk_with_retry {World A} remote_call chunk max_retries st.
Arguments batch_loop {World A} remote_call progress_words chunks max_retries
  total_chunks result_chunks st.
Arguments run_batch {World A} remote_call join progress_words input_chunks
  max_retries st.
Arguments _yandex_batch {World A} remote_call join progress_words fuel
  input_text max_retries st.
Arguments exhausts {World A} remote_call k chunk w last w'.
Arguments transformed {World A} remote_call chunks max_retries st results st'.

(** ** _core.py: the built-in transforms *)

(** A decoded JSON answer. *)
#[warnings="-register-all"]
Inductive json :=
| JNull
| JBool (b : bool)
| JNum (n : Z)
| JStr (s : string)
| JList (items : list json)
| JDict (fields : list (string * json)).

(** What the outside answers during one request: [_get_sid(client)],
    [client.post(...)] with [resp.raise_for_status()], and [resp.json()]. *)
Record remote := mkRemote {
  get_sid : result (option string);
  post : result unit;
  resp_json : result json
}.

Definition _EDIT_API_URL : string :=
  "https://translate.yandex.ru/editor/api/v1/transform-text".
Definition _TRANSLATE_API_URL : string :=
  "https://translate.yandex.net/api/v1/tr.json/translate".

(** [_make_yandex_request(client, api_url, query, form_data)]; the query
    and the form go to the outside and do not change the control flow. *)
Definition _make_yandex_request (r : remote) (api_url : string) : result json :=
  match get_sid r with
  | Raise e => Raise e
  | Ok sid =>
      match sid with
      | None | Some EmptyString =>
          Raise (mkExn RuntimeError
                   "SID не найден, возможно, Яндекс блокирует запрос с помощью капчи.")
      | Some _ =>
          if String.eqb api_url _EDIT_API_URL
             || String.eqb api_url _TRANSLATE_API_URL
          then match post r with
               | Raise e => Raise e
               | Ok _ => resp_json r
               end
          else Raise (mkExn ValueError "неподдерживаемый API URL")
      end
  end.

(** Python truthiness of a JSON value. *)
Definition truthy (v : json) : bool :=
  match v with
  | JNull => false
  | JBool b => b
  | JNum n => negb (n =? 0)
  | JStr s => negb (String.eqb s "")
  | JList items => match items with [] => false | _ => true end
  | JDict fields => match fields with [] => false | _ => true end
  end.

Fixpoint assoc (key : string) (fields : list (string * json)) : option json :=
  match fields with
  | [] => None
  | (k, v) :: rest => if String.eqb k key then Some v else assoc key rest
  end.

(** [type(v).__name__] *)
Definition type_name (v : json) : string :=
  match v with
  | JNull => "NoneType"
  | JBool _ => "bool"
  | JNum _ => "int"
  | JStr _ => "str"
  | JList _ => "list"
  | JDict _ => "dict"
  end.

(** [json_resp.get(key)]: AttributeError when the answer is no object. *)
Definition json_get (json_resp : json) (key : string) : result json :=
  match json_resp with
  | JDict fields =>
      match assoc key fields with
      | Some v => Ok v
      | None => Ok JNull
      end
  | _ => Raise (mkExn (OtherException "AttributeError")
                      ("'" ++ type_name json_resp
                           ++ "' object has no attribute 'get'"))
  end.

(** [''.join(items)], the items from the index [index] on: TypeError on
    the first item that is no string, with its index and its type. *)
Fixpoint join_from (index : nat) (items : list json) : result string :=
  match items with
  | [] => Ok EmptyString
  | JStr s :: rest =>
      match join_from (S index) rest with
      | Ok t => Ok (s ++ t)%string
      | Raise e => Raise e
      end
  | v :: _ =>
      Raise (mkExn TypeError
               ("sequence item " ++ decimal index
                  ++ ": expected str instance, " ++ type_name v ++ " found"))
  end.

Definition join_strings (items : list json) : result string :=
  join_from 0 items.

(** [except Exception as e: raise YandexRequestError(prefix + str(e))]:
    the classes outside [Exception] are not caught. *)
Definition wrap_request_error {B : Type} (prefix : string) (body : result B)
    : result B :=
  match body with
  | Ok b => Ok b
  | Raise e =>
      match exn_class e with
      | NonException _ => Raise e
      | _ => Raise (mkExn YandexRequestError (prefix ++ exn_msg e))
      end
  end.

Section Transforms.

(** [str.lower()] and the text of [f'{json_resp}'] come from the Python
    runtime. *)
Variable lower : str -> str.
Variable json_repr : json -> string.

Definition is_cyrillic (c : Py.char) : bool :=
  ((1072 <=? c) && (c <=? 1103) || (c =? 1105))%N.

Definition is_latin (c : Py.char) : bool := ((97 <=? c) && (c <=? 122))%N.

(** The counting loop of [_detect_lang_pair]. *)
Fixpoint count_letters (chars : str) (cyrillic_count latin_count : nat)
    : nat * nat :=
  match chars with
  | [] => (cyrillic_count, latin_count)
  | c :: rest =>
      if is_cyrillic c then count_letters rest (S cyrillic_count) latin_count
      else if is_latin c then count_letters rest cyrillic_count (S latin_count)
      else count_letters rest cyrillic_count latin_count
  end.

(** [_detect_lang_pair(text)] *)
Definition _detect_lang_pair (text : str) : result (string * string) :=
  match text with
  | [] => Raise (mkExn ValueError
                   "ОШИБКА: входной текст должен быть не пустой строкой!")
  | _ =>
      let '(cyrillic_count, latin_count) := count_letters (lower text) 0 0 in
      let lang :=
        (if (latin_count <? cyrillic_count)%nat then "ru"
         else if (cyrillic_count <? latin_count)%nat then "en"
         else "ru")%string in
      Ok (lang, if String.eqb lang "ru" then "en" else "ru")%string
  end.

Definition missing_text_error (json_resp : json) : exn :=
  mkExn YandexAPIError
    ("ОШИБКА: " ++ dquote ++ "text" ++ dquote
       ++ " не найден или имеет неверный формат в ответе API:"
       ++ lf ++ json_repr json_resp ++ lf).

Definition is_list (v : json) : bool :=
  match v with JList _ => true | _ => false end.

(** [_yandex_translate(input_text, client)] against the answers [r]. *)
Definition _yandex_translate (input_text : str) (r : remote) : result string :=
  match _detect_lang_pair input_text with
  | Raise e => Raise e
  | Ok _ =>
      wrap_request_error "ОШИБКА при переводе текста: "
        match _make_yandex_request r _TRANSLATE_API_URL with
        | Raise e => Raise e
        | Ok json_resp =>
            match json_get json_resp "text" with
            | Raise e => Raise e
            | Ok translated_text_list =>
                if truthy translated_text_list && is_list translated_text_list
                then match translated_text_list with
                     | JList items => join_strings items
                     | _ => Raise (missing_text_error json_resp)
                     end
                else Raise (missing_text_error json_resp)
            end
        end
  end.

(** [_yandex_editor_api(input_text, client, action)]; the action only
    selects what is sent. *)
Definition _yandex_editor_api (input_text : str) (r : remote) : result json :=
  match _detect_lang_pair input_text with
  | Raise e => Raise e
  | Ok _ =>
      wrap_request_error "ОШИБКА при вызове API: "
        match _make_yandex_request r _EDIT_API_URL with
        | Raise e => Raise e
        | Ok json_resp =>
            match json_get json_resp "result_text" with
            | Raise e => Raise e
            | Ok result =>
                if truthy result then Ok result
                else Raise (missing_text_error json_resp)
            end
        end
  end.

(** The transforms as the retry loop calls them: the outside is a
    sequence of answers, one per call, and the world is the number of
    calls made. *)
Variable answers : nat -> remote.

Definition translate_transform (chunk : str) (calls : nat)
    : result string * nat :=
  (_yandex_translate chunk (answers calls), S calls).

Definition editor_transform (chunk : str) (calls : nat) : result json * nat :=
  (_yandex_editor_api chunk (answers calls), S calls).

(** [''.join(result_chunks)] on the results of either transform. *)
Definition join_translated (result_chunks : list string) : result string :=
  Ok (String.concat "" result_chunks).

Definition join_edited (result_chunks : list json) : result string :=
  join_strings result_chunks.

Definition _yandex_translate_batch (fuel : nat) (input_text : str)
    (max_retries : Z) (st : state nat) : option (result string * state nat) :=
  _yandex_batch translate_transform join_translated "было переведено"
                fuel input_text max_retries st.

Definition _yandex_editor_batch (fuel : nat) (input_text : str)
    (max_retries : Z) (st : state nat) : option (result string * state nat) :=
  _yandex_batch editor_transform join_edited "было обработано"
                fuel input_text max_retries st.

(** __init__.py: the public entry points. *)
Definition translate (fuel : nat) (input_text : str) (st : state nat)
    : option (result string * state nat) :=
  _yandex_translate_batch fuel input_text _MAX_RETRIES st.

Definition transform (fuel : nat) (input_text : str) (st : state nat)
    : option (result string * state nat) :=
  _yandex_editor_batch fuel input_text _MAX_RETRIES st.

End Transforms.

(** ** Vocabulary of the properties *)

(** The position of the delimiter that closes a zone: the closing tag,
    or the closing parenthesis of a link (whose tags are empty). *)
Definition close_pos (z : _ProtectedZone) : Z :=
  match close_tag z with
  | [] => end_ z - 1
  | tag => end_ z - len tag
  end.

(** A zone of [text] whose closing delimiter is in place and unescaped,
    and after which the scanner resumes at an unescaped position. *)
Definition well_delimited (text : str) (z : _ProtectedZone) : Prop :=
  start z < close_pos z /\ close_pos z < end_ z /\ end_ z <= len text
  /\ _is_escaped text (close_pos z) = false
  /\ _is_escaped text (end_ z) = false.

(** Zones in left-to-right order from [lo], none empty, none overlapping. *)
Fixpoint left_to_right (lo : Z) (zones : list _ProtectedZone) : Prop :=
  match zones with
  | [] => True
  | z :: rest => lo <= start z /\ start z < end_ z /\ left_to_right (end_ z) rest
  end.

(** [k] consecutive backslashes stand immediately before position [p]
    of [text], and no more. *)
Definition backslash_run (text : str) (p k : nat) : Prop :=
  (k <= p)%nat
  /\ (forall j, (p - k <= j < p)%nat -> nth_error text j = Some backslash)
  /\ ((k < p)%nat -> nth_error text (p - k - 1) <> Some backslash).

(** A tag none of whose characters is a backslash. *)
Definition plain_tag (tag : str) : Prop :=
  tag <> [] /\ Forall (fun c => c <> backslash) tag.

(** The delays of the YandexRequestError schedule for the attempts
    [attempt], [attempt + 1], ..., [n] of them. *)
Definition request_delays (attempt : Z) (n : nat) : list Q :=
  map (fun a => py_min (2 * 2 ^ (attempt + Z.of_nat a)) 30) (seq 0 n).

Definition is_request_delay (d : Q) : Prop :=
  exists attempt, 0 <= attempt /\ d = py_min (2 * 2 ^ attempt) 30.

(** The failures of a built-in transform on [text]. *)
Definition builtin_failure (text : str) (e : exn) : Prop :=
  exn_class e = YandexRequestError
  \/ (text = [] /\ exn_class e = ValueError)
  \/ exists name, exn_class e = NonException name.

(** Transforms used as examples: one that fails on every call, one that
    fails on the chunks that start with the letter b. *)
Definition request_down : exn := mkExn YandexRequestError "down".

Definition always_down (chunk : str) (w : unit) : result string * unit :=
  (Raise request_down, w).

Definition down_on_b (chunk : str) (w : unit) : result string * unit :=
  if Py.startswith chunk (Py.of_string "b") then (Raise request_down, w)
  else (Ok "ok"%string, w).

(** ** _utils.py: decoding of the session key *)

Definition dot : Py.char := Eval cbv in N_of_ascii "."%char.

(** [s.split(sep)] for a separator of one character: the parts between
    its occurrences, the empty ones included. *)
Fixpoint py_split (sep : Py.char) (s : str) : list str :=
  match s with
  | [] => [[]]
  | c :: s' =>
      if N.eqb c sep then [] :: py_split sep s'
      else match py_split sep s' with
           | part :: parts => (c :: part) :: parts
           | [] => [[c]]
           end
  end.

(** [sep.join(parts)] *)
Fixpoint py_join (sep : str) (parts : list str) : str :=
  match parts with
  | [] => []
  | [part] => part
  | part :: parts' => part ++ sep ++ py_join sep parts'
  end.

(** [_decode_sid(sid)]: every part between the dots is reversed. *)
Definition _decode_sid (sid : str) : str :=
  match sid with
  | [] => []
  | _ => py_join [dot] (map (@rev Py.char) (py_split dot sid))
  end.

(** ** Vocabulary of the further properties *)

Section BatchVocabulary.

Variable World : Type.
Variable A : Type.
Variable remote_call : str -> World -> result A * World.

(** The calls of the transform on [chunk] fail with the recognized
    errors [errors], one after the other, and the next call returns [r]. *)
Fixpoint recovers (errors : list exn) (chunk : str) (w : World) (r : A)
    (w' : World) : Prop :=
  match errors with
  | [] => remote_call chunk w = (Ok r, w')
  | e :: errors' =>
      exists w1,
        remote_call chunk w = (Raise e, w1)
        /\ recognized (exn_class e) = true
        /\ recovers errors' chunk w1 r w'
  end.

(** The calls of the transform on [chunk] fail with the recognized
    errors [errors], one after the other, and the next call raises [e]
    and leaves the world [w']. *)
Fixpoint fails_with (errors : list exn) (chunk : str) (w : World) (e : exn)
    (w' : World) : Prop :=
  match errors with
  | [] => remote_call chunk w = (Raise e, w')
  | e0 :: errors' =>
      exists w1,
        remote_call chunk w = (Raise e0, w1)
        /\ recognized (exn_class e0) = true
        /\ fails_with errors' chunk w1 e w'
  end.

(** The transform with a count of its calls beside the world. *)
Definition counted (chunk : str) (w : World * nat) : result A * (World * nat) :=
  let '(r, w') := remote_call chunk (fst w) in (r, (w', S (snd w))).

End BatchVocabulary.

Arguments recovers {World A} remote_call errors chunk w r w'.
Arguments fails_with {World A} remote_call errors chunk w e w'.
Arguments counted {World A} remote_call chunk w.

(** A transform used as an example: on the chunks that start with the
    letter b, the second call of all fails with a YandexRequestError and
    every other call with a ValueError. *)
Definition bad_input : exn := mkExn ValueError "bad input".

Definition bad_on_b (chunk : str) (calls : nat) : result string * nat :=
  if Py.startswith chunk (Py.of_string "b")
  then (if Nat.eqb calls 1 then Raise request_down else Raise bad_input,
        S calls)
  else (Ok "ok"%string, S calls).

(** The delays of the errors [errors] met at the attempts [attempt],
    [attempt + 1], ... *)
Fixpoint backoff_delays (errors : list exn) (attempt : Z) : list Q :=
  match errors with
  | [] => []
  | e :: errors' =>
      py_min (base_delay (retry_config_of (exn_class e)) * 2 ^ attempt)
             (max_delay (retry_config_of (exn_class e)))
      :: backoff_delays errors' (attempt + 1)
  end.

(** [tag] stands in [text] at the position [idx]. *)
Definition occurs_at (text tag : str) (idx : Z) : Prop :=
  0 <= idx /\ Py.startswith (skipn (Z.to_nat idx) text) tag = true.

(** The characters at which the scanner looks for a zone. *)
Definition opens_markup (c : Py.char) : bool :=
  N.eqb c backtick || N.eqb c lbracket || N.eqb c star || N.eqb c underscore
  || N.eqb c tilde || N.eqb c pipe.

(** The four shapes of a zone: fenced block, inline code, link, and
    formatting marker. *)
Definition fenced_block (z : _ProtectedZone) : Prop :=
  require_newline z = true /\ atomic z = false /\ close_tag z = fence
  /\ Py.startswith (open_tag z) fence = true /\ ~ In newline (open_tag z)
  /\ start z + 6 <= end_ z.

Definition inline_code (z : _ProtectedZone) : Prop :=
  require_newline z = false /\ atomic z = true
  /\ open_tag z = [backtick] /\ close_tag z = [backtick]
  /\ start z + 2 <= end_ z.

Definition link (text : str) (z : _ProtectedZone) : Prop :=
  require_newline z = false /\ atomic z = true
  /\ open_tag z = [] /\ close_tag z = []
  /\ Py.is_char text (start z) lbracket = true
  /\ occurs_at text [rparen] (end_ z - 1)
  /\ start z + 4 <= end_ z.

Definition formatting_marker (z : _ProtectedZone) : Prop :=
  require_newline z = false /\ atomic z = false
  /\ open_tag z = close_tag z
  /\ In (open_tag z)
        [[star]; [underscore]; [underscore; underscore]; [tilde]; [pipe; pipe]]
  /\ start z + 2 * len (open_tag z) <= end_ z.

Definition zone_shape (text : str) (z : _ProtectedZone) : Prop :=
  fenced_block z \/ inline_code z \/ link text z \/ formatting_marker z.

(** The markup that closes a zone at the end of a chunk and the one that
    reopens it at the start of the next. *)
Definition closing_of (z : _ProtectedZone) : str :=
  if require_newline z then newline :: close_tag z else close_tag z.

Definition reopening_of (z : _ProtectedZone) : str :=
  if require_newline z then open_tag z ++ [newline] else open_tag z.

(** What a chunk hands to the next: nothing, or the closing and the
    reopening of a zone of [zones] that may be split. *)
Definition handoff (zones : list _ProtectedZone) (suffix next_prefix : str)
    : Prop :=
  (suffix = [] /\ next_prefix = [])
  \/ exists z, In z zones /\ atomic z = false
               /\ suffix = closing_of z /\ next_prefix = reopening_of z.

(** The chunks of a list hand over their markup one to the next, the
    first one starting with [pending]. *)
Fixpoint linked (zones : list _ProtectedZone) (pending : str)
    (ps : list piece) : Prop :=
  match ps with
  | [] => True
  | p :: rest =>
      p_prefix p = pending
      /\ exists next, handoff zones (p_suffix p) next /\ linked zones next rest
  end.

(** * Properties *)

(** ** Python strings *)

Lemma len_nonneg (t : str) : 0 <= len t.
Proof. unfold Py.len. lia. Qed.

Lemma index_in_range (t : str) (i : Z) :
  0 <= i < len t -> Py.index t i = nth_error t (Z.to_nat i).
Proof.
  intros H. unfold Py.index.
  destruct (i <? 0) eqn:E; [lia|].
  destruct (i <? 0) eqn:E1; [lia|].
  destruct (len t <=? i) eqn:E2; [lia|]. reflexivity.
Qed.

Lemma is_char_nth (t : str) (i : Z) (c : Py.char) :
  0 <= i -> Py.is_char t i c = true -> nth_error t (Z.to_nat i) = Some c.
Proof.
  intros Hi. unfold Py.is_char, Py.index.
  destruct (i <? 0) eqn:E; [lia|].
  destruct ((i <? 0) || (len t <=? i)); [discriminate|].
  destruct (nth_error t (Z.to_nat i)) as [d|]; [|discriminate].
  intros H. apply N.eqb_eq in H. now subst.
Qed.

Lemma is_char_lt (t : str) (i : Z) (c : Py.char) :
  0 <= i -> Py.is_char t i c = true -> i < len t.
Proof.
  intros Hi H. apply is_char_nth in H; [|assumption].
  assert (Hn : nth_error t (Z.to_nat i) <> None) by congruence.
  apply nth_error_Some in Hn. unfold Py.len. lia.
Qed.

Lemma startswith_nth (p t : str) :
  Py.startswith t p = true ->
  forall j, (j < List.length p)%nat -> nth_error t j = nth_error p j.
Proof.
  revert t. induction p as [|c p IH]; intros t H j Hj; [simpl in Hj; lia|].
  destruct t as [|d t]; [discriminate|]. simpl in H.
  apply andb_prop in H. destruct H as [Hc Ht]. apply N.eqb_eq in Hc. subst d.
  destruct j; [reflexivity|]. simpl. apply IH; [assumption|simpl in Hj; lia].
Qed.

Lemma startswith_length (p t : str) :
  Py.startswith t p = true -> (List.length p <= List.length t)%nat.
Proof.
  revert t. induction p as [|c p IH]; intros t H; [simpl; lia|].
  destruct t as [|d t]; [discriminate|]. simpl in H.
  apply andb_prop in H. destruct H as [_ Ht]. apply IH in Ht. simpl. lia.
Qed.

Lemma find_from_spec (sub t : str) (pos r : Z) :
  0 <= pos -> Py.find_from t sub pos = r -> r <> -1 ->
  exists k, r = pos + Z.of_nat k /\ (k <= List.length t)%nat
            /\ Py.startswith (skipn k t) sub = true.
Proof.
  revert pos. induction t as [|d t IH]; intros pos Hpos H Hr;
    cbn [Py.find_from] in H.
  - destruct (Py.startswith [] sub) eqn:E; [|congruence].
    exists 0%nat. simpl. repeat split; [lia|lia|assumption].
  - destruct (Py.startswith (d :: t) sub) eqn:E.
    + exists 0%nat. simpl. repeat split; [lia|lia|assumption].
    + apply IH in H; [|lia|assumption].
      destruct H as (k & Hk & Hle & Hs).
      exists (S k). simpl. repeat split; [lia|lia|assumption].
Qed.

Lemma find_spec (t sub : str) (s r : Z) :
  0 <= s -> Py.find t sub s = r -> r <> -1 ->
  s <= r /\ r <= len t /\ Py.startswith (skipn (Z.to_nat r) t) sub = true.
Proof.
  intros Hs H Hr. unfold Py.find in H.
  destruct (s <? 0) eqn:E; [lia|].
  destruct (len t <? s) eqn:E1; [congruence|].
  apply find_from_spec in H; [|assumption|assumption].
  destruct H as (k & Hk & Hle & Hsw).
  rewrite length_skipn in Hle. unfold Py.len in *.
  rewrite skipn_skipn in Hsw.
  replace (Z.to_nat r) with (k + Z.to_nat s)%nat by lia.
  repeat split; [lia|lia|assumption].
Qed.

(** ** Escapes and the search of a closing tag *)

Lemma escaped_after_other (text : str) (p : Z) :
  0 <= p -> nth_error text (Z.to_nat p) <> Some backslash ->
  _is_escaped text (p + 1) = false.
Proof.
  intros Hp H. unfold _is_escaped.
  replace (Z.to_nat (p + 1)) with (S (Z.to_nat p)) by lia.
  cbn [count_backslashes].
  destruct (nth_error text (Z.to_nat p)) as [c|]; [|reflexivity].
  destruct (N.eqb c backslash) eqn:E; [|reflexivity].
  apply N.eqb_eq in E. subst. congruence.
Qed.

Lemma escaped_after_backslash (text : str) (p : Z) :
  0 <= p -> nth_error text (Z.to_nat p) = Some backslash ->
  _is_escaped text (p + 1) = negb (_is_escaped text p).
Proof.
  intros Hp H. unfold _is_escaped.
  replace (Z.to_nat (p + 1)) with (S (Z.to_nat p)) by lia.
  cbn [count_backslashes]. rewrite H, N.eqb_refl.
  rewrite Nat.odd_succ, <- Nat.negb_odd. reflexivity.
Qed.

(** After a skipped pair [\x] the parity is that of before it. *)
Lemma escaped_after_pair (text : str) (i : Z) :
  0 <= i -> nth_error text (Z.to_nat i) = Some backslash ->
  _is_escaped text i = false -> _is_escaped text (i + 2) = false.
Proof.
  intros Hi Hb He.
  replace (i + 2) with ((i + 1) + 1) by lia.
  destruct (nth_error text (Z.to_nat (i + 1))) as [c|] eqn:E.
  - destruct (N.eqb c backslash) eqn:Ec.
    + apply N.eqb_eq in Ec. subst c.
      rewrite escaped_after_backslash by (assumption || lia).
      rewrite escaped_after_backslash by (assumption || lia).
      rewrite He. reflexivity.
    + apply escaped_after_other; [lia|]. rewrite E. intros [= ->].
      rewrite N.eqb_refl in Ec. discriminate.
  - apply escaped_after_other; [lia|]. rewrite E. discriminate.
Qed.

Lemma escaped_after_tag (text tag : str) (idx : Z) :
  0 <= idx -> plain_tag tag ->
  Py.startswith (skipn (Z.to_nat idx) text) tag = true ->
  _is_escaped text (idx + len tag) = false.
Proof.
  intros Hidx [Hne Hall] Hsw.
  assert (Hlen : (0 < List.length tag)%nat) by (destruct tag; [congruence|simpl; lia]).
  replace (idx + len tag) with ((idx + len tag - 1) + 1) by lia.
  unfold Py.len in *.
  apply escaped_after_other; [lia|].
  pose proof (startswith_nth _ _ Hsw (List.length tag - 1)%nat ltac:(lia)) as Hn.
  rewrite nth_error_skipn in Hn.
  replace (Z.to_nat (idx + Z.of_nat (List.length tag) - 1))
    with (Z.to_nat idx + (List.length tag - 1))%nat by lia.
  rewrite Hn. intros Hc.
  apply nth_error_In in Hc. rewrite Forall_forall in Hall.
  exact (Hall _ Hc eq_refl).
Qed.

Lemma find_closing_loop_spec (fuel : nat) (text tag : str) (sp r : Z) :
  0 <= sp -> tag <> [] ->
  find_closing_loop fuel text sp tag = Some r -> r <> -1 ->
  exists idx, r = idx + len tag /\ sp <= idx /\ idx + len tag <= len text
              /\ Py.startswith (skipn (Z.to_nat idx) text) tag = true
              /\ _is_escaped text idx = false.
Proof.
  intros Hsp Htag. revert sp Hsp.
  induction fuel as [|fuel IH]; intros sp Hsp H Hr; [discriminate|].
  cbn [find_closing_loop] in H.
  destruct (Py.find text tag sp =? -1) eqn:E; [congruence|].
  apply Z.eqb_neq in E.
  destruct (find_spec text tag sp _ Hsp eq_refl E) as (Hle & Hmax & Hsw).
  destruct (_is_escaped text (Py.find text tag sp)) eqn:Hesc; cbn [negb] in H.
  - apply IH in H; [|lia|assumption].
    destruct H as (idx & -> & H1 & H2 & H3 & H4).
    exists idx. repeat split; try assumption; lia.
  - injection H as <-. exists (Py.find text tag sp).
    repeat split; try assumption; try lia.
    apply startswith_length in Hsw. rewrite length_skipn in Hsw.
    unfold Py.len in *. lia.
Qed.

Lemma find_closing_loop_total (fuel : nat) (text tag : str) (sp : Z) :
  0 <= sp -> tag <> [] -> (0 < fuel)%nat -> len text - sp < Z.of_nat fuel ->
  exists r, find_closing_loop fuel text sp tag = Some r.
Proof.
  intros Hsp Htag. revert sp Hsp.
  induction fuel as [|fuel IH]; intros sp Hsp Hpos Hf; [lia|].
  cbn [find_closing_loop].
  destruct (Py.find text tag sp =? -1) eqn:E; [eauto|].
  apply Z.eqb_neq in E.
  destruct (_is_escaped text (Py.find text tag sp)); cbn [negb]; [|eauto].
  destruct (find_spec text tag sp _ Hsp eq_refl E) as (Hle & Hmax & Hsw).
  apply startswith_length in Hsw. rewrite length_skipn in Hsw.
  assert (0 < List.length tag)%nat by (destruct tag; [congruence|simpl; lia]).
  unfold Py.len in *.
  apply IH; lia.
Qed.

Lemma _find_closing_tag_spec (text tag : str) (sp : Z) :
  0 <= sp -> tag <> [] -> _find_closing_tag text sp tag <> -1 ->
  exists idx, _find_closing_tag text sp tag = idx + len tag /\ sp <= idx
              /\ idx + len tag <= len text
              /\ Py.startswith (skipn (Z.to_nat idx) text) tag = true
              /\ _is_escaped text idx = false.
Proof.
  intros Hsp Htag. unfold _find_closing_tag.
  destruct (find_closing_loop (S (List.length text)) text sp tag) as [r|] eqn:E;
    [|congruence].
  intros Hr. eapply find_closing_loop_spec; eassumption.
Qed.

(** The search always ends within its bound. *)
Lemma _find_closing_tag_total (text tag : str) (sp : Z) :
  0 <= sp -> tag <> [] ->
  find_closing_loop (S (List.length text)) text sp tag
  = Some (_find_closing_tag text sp tag).
Proof.
  intros Hsp Htag. unfold _find_closing_tag.
  destruct (find_closing_loop_total (S (List.length text)) text tag sp)
    as [r Hr]; try assumption; try lia.
  - unfold Py.len. lia.
  - rewrite Hr. reflexivity.
Qed.

(** ** The zone scanner *)

Ltac plain := split; [discriminate | repeat constructor; discriminate].

Lemma plain_fence : plain_tag fence. Proof. plain. Qed.
Lemma plain_backtick : plain_tag [backtick]. Proof. plain. Qed.
Lemma plain_rbracket : plain_tag [rbracket]. Proof. plain. Qed.
Lemma plain_rparen : plain_tag [rparen]. Proof. plain. Qed.

Lemma marker_at_plain (text : str) (i : Z) :
  marker_at text i = [] \/ plain_tag (marker_at text i).
Proof.
  unfold marker_at.
  repeat match goal with
         | |- context [if ?b then _ else _] => destruct b
         end; (left; reflexivity) || (right; plain).
Qed.

Lemma closing_zone (text tag : str) (i sp : Z) (z : _ProtectedZone) :
  0 <= i -> i < sp -> plain_tag tag ->
  _find_closing_tag text sp tag <> -1 ->
  start z = i -> end_ z = _find_closing_tag text sp tag ->
  close_pos z = end_ z - len tag ->
  well_delimited text z.
Proof.
  intros Hi Hsp Hp Hr Hs He Hc.
  destruct (_find_closing_tag_spec text tag sp ltac:(lia) (proj1 Hp) Hr)
    as (idx & Hidx & Hle & Hmax & Hsw & Hesc).
  assert (0 < len tag).
  { destruct Hp as [Hne _]. destruct tag; [congruence|]. unfold Py.len. simpl. lia. }
  unfold well_delimited. rewrite Hc, He, Hs, Hidx.
  replace (idx + len tag - len tag) with idx by lia.
  repeat split; try lia; try assumption.
  apply escaped_after_tag; [lia|assumption|assumption].
Qed.

Lemma try_fence_spec (text : str) (i : Z) (z : _ProtectedZone) :
  0 <= i -> try_fence text i = Some z -> start z = i /\ well_delimited text z.
Proof.
  intros Hi. unfold try_fence.
  destruct (Py.startswith _ fence); [|discriminate].
  destruct (_ =? -1) eqn:E; [discriminate|]. apply Z.eqb_neq in E.
  intros [= <-]. split; [reflexivity|].
  eapply closing_zone with (i := i) (sp := i + 3) (tag := fence);
    try reflexivity; try assumption; try lia. apply plain_fence.
Qed.

Lemma try_inline_spec (text : str) (i : Z) (z : _ProtectedZone) :
  0 <= i -> try_inline text i = Some z -> start z = i /\ well_delimited text z.
Proof.
  intros Hi. unfold try_inline.
  destruct (Py.is_char text i backtick); [|discriminate].
  destruct (_ =? -1) eqn:E; [discriminate|]. apply Z.eqb_neq in E.
  intros [= <-]. split; [reflexivity|].
  eapply closing_zone with (i := i) (sp := i + 1) (tag := [backtick]);
    try reflexivity; try assumption; try lia. apply plain_backtick.
Qed.

Lemma try_link_spec (text : str) (i : Z) (z : _ProtectedZone) :
  0 <= i -> try_link text i = Some z -> start z = i /\ well_delimited text z.
Proof.
  intros Hi. unfold try_link.
  destruct (Py.is_char text i lbracket); [|discriminate].
  destruct (negb (_ =? -1)) eqn:E; [|discriminate]. cbn [andb].
  apply negb_true_iff, Z.eqb_neq in E.
  destruct (_ <? len text); [|discriminate]. cbn [andb].
  destruct (Py.is_char text _ lparen); [|discriminate].
  destruct (_find_closing_tag text (_ + 1) [rparen] =? -1) eqn:E2; [discriminate|].
  apply Z.eqb_neq in E2.
  intros [= <-]. split; [reflexivity|].
  destruct (_find_closing_tag_spec text [rbracket] (i + 1) ltac:(lia)
              (proj1 plain_rbracket) E) as (idx & Hidx & Hle & _).
  eapply closing_zone with (i := i) (sp := _find_closing_tag text (i + 1) [rbracket] + 1)
                           (tag := [rparen]);
    try reflexivity; try assumption; try apply plain_rparen.
  rewrite Hidx. unfold Py.len. simpl. lia.
Qed.

Lemma try_marker_spec (text : str) (i : Z) (z : _ProtectedZone) :
  0 <= i -> try_marker text i = Some z -> start z = i /\ well_delimited text z.
Proof.
  intros Hi. unfold try_marker.
  destruct (marker_at_plain text i) as [H|H]; [rewrite H; discriminate|].
  destruct (marker_at text i) as [|c tag] eqn:Em; [discriminate|].
  destruct (_ =? -1) eqn:E; [discriminate|]. apply Z.eqb_neq in E.
  intros [= <-]. split; [reflexivity|].
  eapply closing_zone with (i := i) (sp := i + len (c :: tag)) (tag := c :: tag);
    try reflexivity; try assumption.
  unfold Py.len. simpl. lia.
Qed.

Lemma not_backslash_at (text : str) (i : Z) :
  0 <= i -> Py.is_char text i backslash = false ->
  nth_error text (Z.to_nat i) <> Some backslash.
Proof.
  intros Hi H Hn.
  assert (Hlt : i < len text).
  { assert (Hx : nth_error text (Z.to_nat i) <> None) by congruence.
    apply nth_error_Some in Hx. unfold Py.len. lia. }
  unfold Py.is_char in H. rewrite index_in_range in H by lia.
  rewrite Hn, N.eqb_refl in H. discriminate.
Qed.

(** One iteration at an unescaped position: the scanner moves forward to
    an unescaped position, and a zone it emits starts where it stood, ends
    where it resumes and is well delimited. *)
Lemma scan_step_spec (text : str) (i i' : Z) (oz : option _ProtectedZone) :
  0 <= i -> _is_escaped text i = false -> scan_step text i = (oz, i') ->
  i < i' /\ _is_escaped text i' = false
  /\ forall z, oz = Some z -> start z = i /\ end_ z = i' /\ well_delimited text z.
Proof.
  intros Hi Hesc. unfold scan_step.
  destruct (Py.is_char text i backslash) eqn:Eb.
  { intros [= <- <-]. repeat split; try lia; try discriminate.
    apply escaped_after_pair; [assumption| |assumption].
    apply is_char_nth; assumption. }
  assert (Hz : forall z, start z = i /\ well_delimited text z ->
            i < end_ z /\ _is_escaped text (end_ z) = false
            /\ forall z0, Some z = Some z0 ->
                 start z0 = i /\ end_ z0 = end_ z /\ well_delimited text z0).
  { intros z [Hs Hw]. pose proof Hw as (H1 & H2 & H3 & H4 & H5).
    repeat split; try assumption; try lia;
      try (intros z0 [= <-]; repeat split; assumption).
    all: match goal with H : Some _ = Some _ |- _ => injection H as <- end;
      assumption || reflexivity. }
  destruct (try_fence text i) as [z|] eqn:E1.
  { intros [= <- <-]. apply Hz. apply try_fence_spec; assumption. }
  destruct (try_inline text i) as [z|] eqn:E2.
  { intros [= <- <-]. apply Hz. apply try_inline_spec; assumption. }
  destruct (try_link text i) as [z|] eqn:E3.
  { intros [= <- <-]. apply Hz. apply try_link_spec; assumption. }
  destruct (try_marker text i) as [z|] eqn:E4.
  { intros [= <- <-]. apply Hz. apply try_marker_spec; assumption. }
  intros [= <- <-]. repeat split; try lia; try discriminate.
  apply escaped_after_other; [assumption|]. apply not_backslash_at; assumption.
Qed.

Lemma left_to_right_weaken (lo lo' : Z) (zones : list _ProtectedZone) :
  lo' <= lo -> left_to_right lo zones -> left_to_right lo' zones.
Proof. destruct zones; simpl; [trivial|]. intros H (H1 & H2 & H3). repeat split; try assumption; lia. Qed.

Lemma find_zones_loop_spec (fuel : nat) (text : str) :
  forall i acc zs, 0 <= i -> _is_escaped text i = false ->
    find_zones_loop fuel text i acc = Some zs ->
    exists rest, zs = acc ++ rest /\ left_to_right i rest
                 /\ Forall (well_delimited text) rest
                 /\ Forall (fun z => _is_escaped text (start z) = false) rest.
Proof.
  induction fuel as [|fuel IH]; intros i acc zs Hi Hesc H;
    cbn [find_zones_loop] in H;
    destruct (i <? len text) eqn:E;
    try discriminate;
    try (injection H as <-; exists []; rewrite app_nil_r; simpl; auto).
  destruct (scan_step text i) as [oz i'] eqn:Es.
  destruct (scan_step_spec text i i' oz Hi Hesc Es) as (Hlt & Hesc' & Hz).
  destruct oz as [z|].
  - destruct (Hz z eq_refl) as (Hs & He & Hw).
    apply IH in H; [|lia|assumption].
    destruct H as (rest & -> & Hl & Hf & Hg).
    exists (z :: rest). rewrite <- app_assoc. simpl.
    repeat split; try lia; try (constructor; assumption || congruence).
    + now rewrite He.
  - apply IH in H; [|lia|assumption].
    destruct H as (rest & -> & Hl & Hf & Hg).
    exists rest. repeat split; try assumption.
    apply left_to_right_weaken with (lo := i'); [lia|assumption].
Qed.

Lemma find_zones_loop_total (fuel : nat) (text : str) :
  forall i acc, 0 <= i -> _is_escaped text i = false ->
    len text - i <= Z.of_nat fuel ->
    exists zs, find_zones_loop fuel text i acc = Some zs.
Proof.
  induction fuel as [|fuel IH]; intros i acc Hi Hesc Hf;
    cbn [find_zones_loop]; destruct (i <? len text) eqn:E; eauto; try lia.
  destruct (scan_step text i) as [oz i'] eqn:Es.
  destruct (scan_step_spec text i i' oz Hi Hesc Es) as (Hlt & Hesc' & _).
  destruct oz; apply IH; assumption || lia.
Qed.

Lemma _find_zones_total (text : str) :
  find_zones_loop (List.length text) text 0 [] = Some (_find_zones text).
Proof.
  unfold _find_zones.
  destruct (find_zones_loop_total (List.length text) text 0 [])
    as [zs Hzs]; try reflexivity; try lia.
  - unfold Py.len. lia.
  - rewrite Hzs. reflexivity.
Qed.

Lemma _find_zones_spec (text : str) :
  left_to_right 0 (_find_zones text)
  /\ Forall (well_delimited text) (_find_zones text)
  /\ Forall (fun z => _is_escaped text (start z) = false) (_find_zones text).
Proof.
  pose proof (_find_zones_total text) as H.
  apply find_zones_loop_spec in H; [|lia|reflexivity].
  destruct H as (rest & Hr & H). simpl in Hr. rewrite Hr. exact H.
Qed.

Lemma left_to_right_bounds (zones : list _ProtectedZone) :
  forall lo, left_to_right lo zones ->
    forall z, In z zones -> lo <= start z /\ start z < end_ z.
Proof.
  induction zones as [|z0 zones IH]; intros lo H z Hin; [contradiction|].
  destruct H as (H1 & H2 & H3). destruct Hin as [<-|Hin]; [lia|].
  destruct (IH _ H3 z Hin). lia.
Qed.

Lemma left_to_right_disjoint (zones : list _ProtectedZone) :
  forall lo, left_to_right lo zones ->
    forall j k zj zk, (j < k)%nat ->
      nth_error zones j = Some zj -> nth_error zones k = Some zk ->
      end_ zj <= start zk.
Proof.
  induction zones as [|z0 zones IH]; intros lo H j k zj zk Hjk Hj Hk.
  - destruct j; discriminate.
  - destruct H as (H1 & H2 & H3).
    destruct k as [|k]; [lia|]. simpl in Hk.
    destruct j as [|j].
    + simpl in Hj. injection Hj as Hj. subst zj. apply nth_error_In in Hk.
      destruct (left_to_right_bounds _ _ H3 _ Hk). lia.
    + simpl in Hj. apply (IH _ H3 j k zj zk); [lia|assumption|assumption].
Qed.

Lemma count_backslashes_run (text : str) (p k : nat) :
  backslash_run text p k -> count_backslashes text p = k.
Proof.
  revert k. induction p as [|p IH]; intros k (Hle & Hall & Hstop).
  - simpl. lia.
  - cbn [count_backslashes].
    destruct k as [|k].
    + specialize (Hstop ltac:(lia)).
      replace (S p - 0 - 1)%nat with p in Hstop by lia.
      destruct (nth_error text p) as [c|]; [|reflexivity].
      destruct (N.eqb c backslash) eqn:E; [|reflexivity].
      apply N.eqb_eq in E. subst. congruence.
    + rewrite (Hall p) by lia. rewrite N.eqb_refl. f_equal.
      apply IH. repeat split; [lia| |].
      * intros j Hj. apply Hall. lia.
      * intros Hk. replace (p - k - 1)%nat with (S p - S k - 1)%nat by lia.
        apply Hstop. lia.
Qed.

(** C9: the scan of any text ends within [len(text)] iterations, and the
    zones it returns lie inside the text, each from its start to a later
    end, in left-to-right order: a zone ends before any later zone of the
    list starts, so that no two overlap and none is nested in another. *)
Theorem zones_ordered_disjoint (text : str) :
  find_zones_loop (List.length text) text 0 [] = Some (_find_zones text)
  /\ (forall z, In z (_find_zones text) ->
        0 <= start z /\ start z < end_ z /\ end_ z <= len text)
  /\ (forall j k zj zk, (j < k)%nat ->
        nth_error (_find_zones text) j = Some zj ->
        nth_error (_find_zones text) k = Some zk ->
        start zj < end_ zj /\ end_ zj <= start zk).
Proof.
  destruct (_find_zones_spec text) as (Hl & Hw & _).
  split; [apply _find_zones_total|]. split.
  - intros z Hin. destruct (left_to_right_bounds _ _ Hl z Hin).
    rewrite Forall_forall in Hw. destruct (Hw z Hin) as (_ & _ & Hend & _). lia.
  - intros j k zj zk Hjk Hj Hk. split.
    + apply nth_error_In in Hj. destruct (left_to_right_bounds _ _ Hl zj Hj). lia.
    + eapply left_to_right_disjoint; eassumption.
Qed.

(** C7: a position immediately preceded by an odd number of consecutive
    backslashes is escaped for [_is_escaped], which counts that run, and
    no zone of the scan starts there or has its closing delimiter there. *)
Theorem escaped_delimiter_inert (text : str) (p k : nat) (z : _ProtectedZone) :
  backslash_run text p k -> Nat.odd k = true ->
  In z (_find_zones text) ->
  _is_escaped text (Z.of_nat p) = true
  /\ start z <> Z.of_nat p /\ close_pos z <> Z.of_nat p.
Proof.
  intros Hrun Hodd Hin.
  assert (He : _is_escaped text (Z.of_nat p) = true).
  { unfold _is_escaped. rewrite Nat2Z.id, (count_backslashes_run _ _ _ Hrun).
    assumption. }
  destruct (_find_zones_spec text) as (_ & Hw & Hs).
  rewrite Forall_forall in Hw, Hs.
  destruct (Hw z Hin) as (_ & _ & _ & Hc & _). specialize (Hs z Hin). cbv beta in Hs.
  repeat split; try assumption; intros Heq; rewrite Heq in *; congruence.
Qed.

(** In [a\*b*c*] the star at position 2 is escaped; the zone is the one
    of the two stars after it. *)
Lemma escaped_delimiter_inert_witness :
  let text := Py.of_string "a\*b*c*" in
  _is_escaped text 2 = true
  /\ start (mkZone 4 7 [star] [star] false false) <> 2
  /\ close_pos (mkZone 4 7 [star] [star] false false) <> 2.
Proof.
  apply (escaped_delimiter_inert (Py.of_string "a\*b*c*") 2 1).
  - repeat split.
    + lia.
    + intros j Hj. assert (j = 1%nat) as -> by lia. reflexivity.
    + intros _. discriminate.
  - reflexivity.
  - vm_compute. left. reflexivity.
Defined.

Lemma slice_from_nonneg (text : str) (i : Z) :
  0 <= i <= len text -> Py.slice_from text i = skipn (Z.to_nat i) text.
Proof.
  intros H. unfold Py.slice_from, Py.clamp.
  destruct (i <? 0) eqn:E; [lia|]. rewrite Z.min_l by lia. reflexivity.
Qed.

(** What one iteration of the scan does at a run of three backticks with
    no unescaped closing run after it: the fence rule gives nothing, and
    the inline-code rule, whose search of a closing backtick stops at the
    second backtick of the run, emits the atomic zone [i, i + 2) and
    resumes at [i + 2]. *)
Lemma unclosed_fence_becomes_inline (text : str) (i : Z) :
  0 <= i < len text ->
  Py.startswith (Py.slice_from text i) fence = true ->
  _find_closing_tag text (i + 3) fence = -1 ->
  try_fence text i = None
  /\ scan_step text i
     = (Some (mkZone i (i + 2) [backtick] [backtick] false true), i + 2).
Proof.
  intros Hi Hsw Hclose.
  assert (Hf : try_fence text i = None).
  { unfold try_fence. rewrite Hsw, Hclose. reflexivity. }
  split; [assumption|].
  rewrite slice_from_nonneg in Hsw by lia.
  pose proof (startswith_nth _ _ Hsw 0%nat ltac:(simpl; lia)) as H0.
  pose proof (startswith_nth _ _ Hsw 1%nat ltac:(simpl; lia)) as H1.
  rewrite nth_error_skipn in H0, H1. simpl in H0, H1.
  rewrite Nat.add_0_r in H0.
  assert (Hc : forall c, Py.is_char text i c = N.eqb backtick c).
  { intros c. unfold Py.is_char. rewrite index_in_range by lia. now rewrite H0. }
  assert (H1' : nth_error text (Z.to_nat (i + 1)) = Some backtick).
  { replace (Z.to_nat (i + 1)) with (Z.to_nat i + 1)%nat by lia. exact H1. }
  assert (Hlen : i + 1 < len text).
  { assert (Hx : nth_error text (Z.to_nat (i + 1)) <> None) by congruence.
    apply nth_error_Some in Hx. unfold Py.len. lia. }
  assert (Hfind : Py.find text [backtick] (i + 1) = i + 1).
  { unfold Py.find. destruct (i + 1 <? 0) eqn:E; [lia|].
    destruct (len text <? i + 1) eqn:E2; [lia|].
    destruct (skipn (Z.to_nat (i + 1)) text) as [|c rest] eqn:Es.
    - pose proof (nth_error_skipn (Z.to_nat (i + 1)) text 0) as Hn.
      rewrite Es, Nat.add_0_r, H1' in Hn. discriminate.
    - pose proof (nth_error_skipn (Z.to_nat (i + 1)) text 0) as Hn.
      rewrite Es, Nat.add_0_r, H1' in Hn. simpl in Hn. injection Hn as ->.
      destruct rest; reflexivity. }
  assert (Hinl : _find_closing_tag text (i + 1) [backtick] = i + 2).
  { unfold _find_closing_tag. cbn [find_closing_loop]. rewrite Hfind.
    destruct (i + 1 =? -1) eqn:E; [lia|].
    rewrite escaped_after_other; [|lia|rewrite H0; discriminate].
    cbn [negb]. unfold Py.len. simpl. lia. }
  unfold scan_step. rewrite Hc. change (N.eqb backtick backslash) with false.
  cbv iota. rewrite Hf. unfold try_inline. rewrite Hc, N.eqb_refl, Hinl.
  destruct (i + 2 =? -1) eqn:E; [lia|]. reflexivity.
Qed.

(** The two zones of [`a` *b*]. *)
Lemma zones_ordered_disjoint_witness :
  let z0 := mkZone 0 3 [backtick] [backtick] false true in
  let z1 := mkZone 4 7 [star] [star] false false in
  start z0 < end_ z0 /\ end_ z0 <= start z1.
Proof.
  intros z0 z1.
  apply (proj2 (proj2 (zones_ordered_disjoint (Py.of_string "`a` *b*")))
           0%nat 1%nat z0 z1).
  - lia.
  - reflexivity.
  - reflexivity.
Defined.

(** ** The chunk splitter *)

Lemma walk_back_le (text : str) (current_pos : Z) :
  forall k split_pos r,
    walk_back k text current_pos split_pos = Ok r -> r <= split_pos.
Proof.
  induction k as [|k IH]; intros sp r H; cbn [walk_back] in H.
  - injection H as <-. lia.
  - destruct (sp >? current_pos); [|injection H as <-; lia].
    destruct (Py.index text (sp - 1)); [|discriminate].
    destruct (_ && _); [|injection H as <-; lia].
    apply IH in H. lia.
Qed.

Lemma lookback_le (text : str) :
  forall k i best found r f,
    lookback k text i best found = Ok (r, f) -> r <= Z.max i best.
Proof.
  induction k as [|k IH]; intros i best found r f H; cbn [lookback] in H.
  - injection H as <- _. lia.
  - destruct (Py.index text (i - 1)); [|discriminate].
    destruct (_ && _); [apply IH in H; lia|].
    destruct (N.eqb _ newline); [injection H as <- _; lia|].
    destruct (_ && _); apply IH in H; lia.
Qed.

Lemma adjust_to_zone_le (active_zone : option _ProtectedZone)
    (current_pos effective_max split_pos sp : Z) (suffix next_prefix : str) :
  match active_zone with
  | Some z => start z < split_pos
  | None => True
  end ->
  adjust_to_zone active_zone current_pos effective_max split_pos
  = (sp, suffix, next_prefix) ->
  sp <= split_pos.
Proof.
  unfold adjust_to_zone. destruct active_zone as [z|]; [|intros _ [= <- _ _]; lia].
  intros Hz. destruct (atomic z).
  - destruct (start z >? current_pos); intros [= <- _ _]; lia.
  - pose proof (len_nonneg (close_tag z)).
    pose proof (len_nonneg (newline :: close_tag z)).
    destruct (require_newline z); destruct (_ >? _); intros [= <- _ _]; lia.
Qed.

Lemma active_zone_at_start (zones : list _ProtectedZone) (split_pos : Z) :
  match active_zone_at zones split_pos with
  | Some z => start z < split_pos
  | None => True
  end.
Proof.
  unfold active_zone_at.
  destruct (List.find _ zones) as [z|] eqn:E; [|trivial].
  apply find_some in E. destruct E as [_ E].
  apply andb_prop in E. destruct E as [E _]. lia.
Qed.

(** What an iteration that continues emits: the slice from the current
    position to the new one, which lies below the end of the text. *)
Lemma split_step_next (text : str) (zones : list _ProtectedZone)
    (max_length current_pos : Z) (pending_prefix : str) (p : piece)
    (current_pos' : Z) (pending_prefix' : str) :
  split_step text zones max_length current_pos pending_prefix
  = Ok (Next p current_pos' pending_prefix') ->
  p_from p = current_pos /\ p_to p = current_pos'
  /\ p_raw p = Py.slice text current_pos current_pos'
  /\ p_prefix p = pending_prefix
  /\ current_pos' < len text.
Proof.
  unfold split_step.
  destruct (_ <=? _) eqn:Efit; [discriminate|].
  destruct (walk_back _ _ _ _) as [sp|] eqn:Ew; [|discriminate].
  apply walk_back_le in Ew.
  destruct (adjust_to_zone _ _ _ _) as [[sp' suffix] next_prefix] eqn:Ea.
  apply adjust_to_zone_le in Ea; [|apply active_zone_at_start].
  destruct (lookback _ _ _ _ _) as [[best found]|] eqn:El; [|discriminate].
  apply lookback_le in El.
  intros [= <- <- <-]. cbn [p_from p_to p_raw p_prefix].
  repeat split. destruct found; lia.
Qed.

Lemma split_step_final (text : str) (zones : list _ProtectedZone)
    (max_length current_pos : Z) (pending_prefix : str) (p : piece) :
  split_step text zones max_length current_pos pending_prefix = Ok (Final p) ->
  p_from p = current_pos /\ p_to p = len text
  /\ p_raw p = Py.slice_from text current_pos
  /\ p_prefix p = pending_prefix /\ p_suffix p = [].
Proof.
  unfold split_step.
  destruct (_ <=? _) eqn:Efit.
  - intros [= <-]. repeat split.
  - destruct (walk_back _ _ _ _); [|discriminate].
    destruct (adjust_to_zone _ _ _ _) as [[sp' suffix] next_prefix].
    destruct (lookback _ _ _ _ _) as [[best found]|]; discriminate.
Qed.

Lemma slice_forward (text : str) (a b : Z) :
  0 <= a <= b -> b <= len text ->
  Py.slice text a b ++ skipn (Z.to_nat b) text = skipn (Z.to_nat a) text.
Proof.
  intros Hab Hb. unfold Py.slice, Py.clamp.
  destruct (a <? 0) eqn:Ea; [lia|]. destruct (b <? 0) eqn:Eb; [lia|].
  rewrite !Z.min_l by lia.
  replace (Z.to_nat b) with (Z.to_nat (b - a) + Z.to_nat a)%nat by lia.
  rewrite <- skipn_skipn. apply firstn_skipn.
Qed.

(** Coverage holds for every split in which no iteration moves the
    position backwards. *)
Lemma split_loop_covers (text : str) (zones : list _ProtectedZone)
    (max_length : Z) :
  forall fuel current_pos pending_prefix chunks ps,
    split_loop fuel text zones max_length current_pos pending_prefix chunks
    = Some (Ok ps) ->
    exists rest,
      ps = chunks ++ rest
      /\ (0 <= current_pos -> Forall (fun p => p_from p <= p_to p) rest ->
          List.concat (map p_raw rest) = skipn (Z.to_nat current_pos) text).
Proof.
  induction fuel as [|fuel IH]; intros cp pp chunks ps H;
    cbn [split_loop] in H; destruct (cp <? len text) eqn:E; try discriminate.
  1,3: injection H as <-; exists []; rewrite app_nil_r; split; [reflexivity|];
       intros _ _; simpl; symmetry; apply skipn_all2; unfold Py.len in *; lia.
  destruct (split_step text zones max_length cp pp) as [[p|p cp' pp']|e] eqn:Es;
    [| |discriminate].
  - injection H as <-. exists [p]. split; [reflexivity|]. intros Hcp _.
    apply split_step_final in Es. destruct Es as (_ & _ & Hr & _).
    simpl. rewrite app_nil_r, Hr. unfold Py.slice_from, Py.clamp.
    destruct (cp <? 0) eqn:E0; [lia|]. rewrite Z.min_l by lia. reflexivity.
  - apply split_step_next in Es. destruct Es as (Hf & Ht & Hr & _ & Hlt).
    apply IH in H. destruct H as (rest & -> & Hcov).
    exists (p :: rest). rewrite <- app_assoc. split; [reflexivity|].
    intros Hcp Hall. inversion Hall as [|? ? Hp Hall']; subst.
    simpl. rewrite (Hcov ltac:(lia) Hall'), Hr. apply slice_forward; lia.
Qed.

(** X9: a finished split none of whose chunks runs backwards covers the
    text: the parts of the text in the chunks, the added markup left
    out, give the text back when concatenated in order. *)
Lemma split_covers_when_forward (fuel : nat) (text : str) (max_length : Z)
    (ps : list piece) :
  split_pieces fuel text max_length = Some (Ok ps) ->
  Forall (fun p => p_from p <= p_to p) ps ->
  List.concat (map p_raw ps) = text.
Proof.
  unfold split_pieces. intros H Hall.
  apply split_loop_covers in H. destruct H as (rest & -> & Hcov).
  simpl in *. apply Hcov; [lia|assumption].
Qed.

(** More iterations do not change a result already reached. *)
Lemma split_loop_more_fuel (text : str) (zones : list _ProtectedZone)
    (max_length : Z) (extra : nat) :
  forall fuel current_pos pending_prefix chunks r,
    split_loop fuel text zones max_length current_pos pending_prefix chunks
    = Some r ->
    split_loop (fuel + extra) text zones max_length current_pos pending_prefix
               chunks = Some r.
Proof.
  induction fuel as [|fuel IH]; intros cp pp chunks r H.
  - cbn [split_loop] in H. destruct (cp <? len text) eqn:E; [discriminate|].
    destruct extra; cbn [split_loop Nat.add]; rewrite E; assumption.
  - cbn [split_loop Nat.add] in *. destruct (cp <? len text); [|assumption].
    destruct (split_step text zones max_length cp pp) as [[p|p cp' pp']|e];
      try assumption.
    apply IH. assumption.
Qed.

Lemma split_pieces_more_fuel (fuel : nat) (text : str) (max_length : Z)
    (extra : nat) (r : result (list piece)) :
  split_pieces fuel text max_length = Some r ->
  split_pieces (fuel + extra) text max_length = Some r.
Proof. unfold split_pieces. apply split_loop_more_fuel. Qed.

(** A state of the loop that an iteration leaves unchanged is never left. *)
Lemma stuck_state_diverges (text : str) (zones : list _ProtectedZone)
    (max_length current_pos : Z) (pending_prefix : str) (p : piece) :
  current_pos < len text ->
  split_step text zones max_length current_pos pending_prefix
  = Ok (Next p current_pos pending_prefix) ->
  forall fuel chunks,
    split_loop fuel text zones max_length current_pos pending_prefix chunks
    = None.
Proof.
  intros Hlt Hstep. induction fuel as [|fuel IH]; intros chunks;
    cbn [split_loop]; (destruct (current_pos <? len text) eqn:E; [|lia]).
  - reflexivity.
  - rewrite Hstep. apply IH.
Qed.

(** C2 fails on the code: on a backslash followed by "ab", with
    [max_length = 1], the walk back over the backslash brings the split
    position to [current_pos]; the iteration emits an empty chunk and
    leaves the state as it was, and the loop never ends. *)
Theorem split_backslash_diverges :
  _find_zones (Py.of_string "\ab") = []
  /\ split_step (Py.of_string "\ab") [] 1 0 []
     = Ok (Next (mkPiece [] 0 0 [] []) 0 [])
  /\ forall fuel, _smart_split fuel (Py.of_string "\ab") 1 = None.
Proof.
  assert (Hz : _find_zones (Py.of_string "\ab") = []) by (vm_compute; reflexivity).
  assert (Hs : split_step (Py.of_string "\ab") [] 1 0 []
               = Ok (Next (mkPiece [] 0 0 [] []) 0 []))
    by (vm_compute; reflexivity).
  repeat split; try assumption.
  intros fuel. unfold _smart_split, split_pieces. rewrite Hz.
  change (if 1 <=? 0 then 4096 else 1) with 1.
  assert (Hlt : 0 < len (Py.of_string "\ab")) by reflexivity.
  rewrite (stuck_state_diverges _ _ _ _ _ _ Hlt Hs).
  reflexivity.
Qed.

(** The same with [max_length = 2], through the length of the suffix
    that closes a zone. *)
Lemma split_marker_diverges :
  forall fuel, _smart_split fuel (Py.of_string "a*bcdef*") 2 = None.
Proof.
  intros fuel. unfold _smart_split, split_pieces.
  set (text := Py.of_string "a*bcdef*").
  assert (Hz : _find_zones text = [mkZone 1 8 [star] [star] false false])
    by (vm_compute; reflexivity).
  rewrite Hz. change (if 2 <=? 0 then 4096 else 2) with 2.
  assert (H1 : split_step text [mkZone 1 8 [star] [star] false false] 2 0 []
               = Ok (Next (mkPiece [] 0 1 (Py.of_string "a") [star]) 1 [star]))
    by (vm_compute; reflexivity).
  assert (H2 : split_step text [mkZone 1 8 [star] [star] false false] 2 1 [star]
               = Ok (Next (mkPiece [star] 1 1 [] [star]) 1 [star]))
    by (vm_compute; reflexivity).
  destruct fuel as [|fuel]; [reflexivity|].
  cbn [split_loop]. change (0 <? len text) with true. cbv iota.
  rewrite H1.
  assert (Hlt : 1 < len text) by reflexivity.
  rewrite (stuck_state_diverges _ _ _ _ _ _ Hlt H2).
  reflexivity.
Qed.

(** C1 fails on the code: with [max_length = 4], the second iteration
    takes the length of the closing fence off the split position, which
    falls below [current_pos]; the last chunk starts over from there and
    the raw spans repeat a character of the text. *)
Theorem split_overlap :
  let text := Py.of_string "*abc*``````" in
  forall extra,
    exists ps,
      split_pieces (3 + extra) text 4 = Some (Ok ps)
      /\ _smart_split (3 + extra) text 4
         = Some (Ok [Py.of_string "*ab*";
                     Py.of_string "*" ++ [newline] ++ fence;
                     fence ++ [newline] ++ Py.of_string "bc*``````"])
      /\ map (fun p => (p_from p, p_to p, p_raw p)) ps
         = [(0, 3, Py.of_string "*ab"); (3, 2, []);
            (2, 11, Py.of_string "bc*``````")]
      /\ List.concat (map p_raw ps) = Py.of_string "*abbc*``````"
      /\ List.concat (map p_raw ps) <> text.
Proof.
  intros text extra.
  assert (H : exists ps, split_pieces 3 text 4 = Some (Ok ps)
      /\ map render ps
         = [Py.of_string "*ab*"; Py.of_string "*" ++ [newline] ++ fence;
            fence ++ [newline] ++ Py.of_string "bc*``````"]
      /\ map (fun p => (p_from p, p_to p, p_raw p)) ps
         = [(0, 3, Py.of_string "*ab"); (3, 2, []);
            (2, 11, Py.of_string "bc*``````")]
      /\ List.concat (map p_raw ps) = Py.of_string "*abbc*``````"
      /\ List.concat (map p_raw ps) <> text).
  { eexists. split; [vm_compute; reflexivity|].
    split; [vm_compute; reflexivity|].
    split; [vm_compute; reflexivity|]. split; [vm_compute; reflexivity|].
    vm_compute. discriminate. }
  destruct H as (ps & H & Hchunks & Hrest). exists ps.
  pose proof (split_pieces_more_fuel _ _ _ extra _ H) as H'.
  split; [exact H'|]. split; [|exact Hrest].
  unfold _smart_split. rewrite H', Hchunks. reflexivity.
Qed.

(** C3 fails on the code: with [max_length = 8] the only atomic zone,
    [10, 15), starts after the first boundary, 8, which is the current
    position of the iteration that cuts it: the search of a space moves
    the boundary to 13, inside the zone. *)
Theorem split_cuts_atomic_zone :
  let text := Py.of_string "xxxxxxxxyy`a b`zzzzzzzz" in
  let z := mkZone 10 15 [backtick] [backtick] false true in
  _find_zones text = [z]
  /\ forall extra,
       exists ps,
         split_pieces (4 + extra) text 8 = Some (Ok ps)
         /\ _smart_split (4 + extra) text 8
            = Some (Ok [Py.of_string "xxxxxxxx"; Py.of_string "yy`a ";
                        Py.of_string "b`zzzzzz"; Py.of_string "zz"])
         /\ map (fun p => (p_from p, p_to p)) ps
            = [(0, 8); (8, 13); (13, 21); (21, 23)]
         /\ exists p, nth_error ps 1 = Some p
                      /\ p_from p < start z
                      /\ start z < p_to p < end_ z.
Proof.
  intros text z. split; [vm_compute; reflexivity|]. intros extra.
  assert (H : exists ps, split_pieces 4 text 8 = Some (Ok ps)
         /\ map render ps
            = [Py.of_string "xxxxxxxx"; Py.of_string "yy`a ";
               Py.of_string "b`zzzzzz"; Py.of_string "zz"]
         /\ map (fun p => (p_from p, p_to p)) ps
            = [(0, 8); (8, 13); (13, 21); (21, 23)]
         /\ exists p, nth_error ps 1 = Some p
                      /\ p_from p < start z
                      /\ start z < p_to p < end_ z).
  { eexists. split; [vm_compute; reflexivity|].
    split; [vm_compute; reflexivity|].
    split; [vm_compute; reflexivity|].
    eexists. split; [vm_compute; reflexivity|].
    vm_compute. repeat split. }
  destruct H as (ps & H & Hchunks & Hrest). exists ps.
  pose proof (split_pieces_more_fuel _ _ _ extra _ H) as H'.
  split; [exact H'|]. split; [|exact Hrest].
  unfold _smart_split. rewrite H', Hchunks. reflexivity.
Qed.

(** C6 fails on the code: in [```x`code`y] the run of three backticks
    at 0 has no closing run, and the scan does not pass over it as over
    ordinary text: the iteration at 0 emits the atomic zone [0, 2), an
    inline code of nothing made of the first two backticks, and resumes
    at 2, not at 1.  There the third backtick is paired with the backtick
    that opens the inline code [`code`], [4, 10): the zones of the text
    are [0, 2) and [2, 5), the inline code is in none of them (its
    closing backtick, at 9, finds no partner), and with [max_length = 7]
    the splitter cuts it after [co]. *)
Theorem unclosed_fence_emits_zone :
  let text := Py.of_string "```x`code`y" in
  let z0 := mkZone 0 2 [backtick] [backtick] false true in
  let z1 := mkZone 2 5 [backtick] [backtick] false true in
  Py.startswith (Py.slice_from text 0) fence = true
  /\ (forall j, 3 <= j -> occurs_at text fence j -> False)
  /\ _find_closing_tag text 3 fence = -1
  /\ scan_step text 0 = (Some z0, 2)
  /\ _find_zones text = [z0; z1]
  /\ Py.slice text 4 10 = Py.of_string "`code`"
  /\ (forall z, In z (_find_zones text) -> ~ (start z <= 4 /\ 10 <= end_ z))
  /\ forall extra,
       exists ps,
         split_pieces (2 + extra) text 7 = Some (Ok ps)
         /\ _smart_split (2 + extra) text 7
            = Some (Ok [Py.of_string "```x`co"; Py.of_string "de`y"])
         /\ map (fun p => (p_from p, p_to p)) ps = [(0, 7); (7, 11)].
Proof.
  intros text z0 z1.
  assert (Hz : _find_zones text = [z0; z1]) by (vm_compute; reflexivity).
  split; [reflexivity|].
  split.
  { intros j Hj [_ Ho].
    assert (Hcases : (Z.to_nat j = 3 \/ Z.to_nat j = 4 \/ Z.to_nat j = 5
                      \/ Z.to_nat j = 6 \/ Z.to_nat j = 7 \/ Z.to_nat j = 8
                      \/ Z.to_nat j = 9 \/ Z.to_nat j = 10
                      \/ 11 <= Z.to_nat j)%nat) by lia.
    destruct Hcases as [E|[E|[E|[E|[E|[E|[E|[E|E]]]]]]]];
      try (rewrite E in Ho; vm_compute in Ho; discriminate Ho).
    rewrite skipn_all2 in Ho
      by (change (List.length text) with 11%nat; lia).
    discriminate Ho. }
  split; [vm_compute; reflexivity|].
  split; [vm_compute; reflexivity|].
  split; [exact Hz|].
  split; [vm_compute; reflexivity|].
  split.
  { rewrite Hz. intros z [<-|[<-|[]]]; unfold z0, z1; cbn [start end_]; lia. }
  intros extra.
  assert (H : exists ps, split_pieces 2 text 7 = Some (Ok ps)
         /\ map render ps = [Py.of_string "```x`co"; Py.of_string "de`y"]
         /\ map (fun p => (p_from p, p_to p)) ps = [(0, 7); (7, 11)]).
  { eexists. split; [vm_compute; reflexivity|].
    split; vm_compute; reflexivity. }
  destruct H as (ps & H & Hchunks & Hspans). exists ps.
  pose proof (split_pieces_more_fuel _ _ _ extra _ H) as H'.
  split; [exact H'|]. split; [|exact Hspans].
  unfold _smart_split. rewrite H', Hchunks. reflexivity.
Qed.

(** ** The backoff policy *)

Lemma py_min_Qmin (a b : Q) : (py_min a b == Qmin a b)%Q.
Proof.
  unfold py_min. destruct (Qle_bool a b) eqn:E.
  - apply Qle_bool_iff in E. symmetry. apply Q.min_l. assumption.
  - symmetry. apply Q.min_r. apply Qlt_le_weak, Qnot_le_lt.
    intros H. apply Qle_bool_iff in H. congruence.
Qed.

Lemma backoff_pow_in_range (attempt : Z) :
  0 <= attempt <= 1023 -> backoff_pow attempt = Ok (2 ^ attempt)%Q.
Proof.
  intros H. unfold backoff_pow.
  destruct (1024 <=? attempt) eqn:E; [lia|].
  destruct (attempt <? -1074) eqn:E2; [lia|]. reflexivity.
Qed.

Lemma base_delay_nonneg (c : exc_class) : (0 <= base_delay (retry_config_of c))%Q.
Proof. destruct c; discriminate. Qed.

(** The table of [_const.py], entry by entry. *)
Lemma retry_config_table :
  retry_config_of YandexAPIError = mkConfig 1 10
  /\ retry_config_of YandexRequestError = mkConfig 2 30
  /\ forall c, recognized c = false -> retry_config_of c = mkConfig 1 15.
Proof.
  repeat split. intros c H. destruct c; try reflexivity; discriminate.
Qed.

Lemma error_delay_overflows (e : exn) (attempt : Z) :
  1024 <= attempt -> error_delay e attempt = Raise overflow_error.
Proof.
  intros H. unfold error_delay, backoff_pow.
  destruct (1024 <=? attempt) eqn:E; [reflexivity|lia].
Qed.

(** C5, as stated, fails at the attempt 1024: the float power overflows
    and no delay is computed. *)
Lemma error_delay_counterexample :
  ~ (forall (e : exn) (i : Z), 0 <= i ->
       exists d name,
         error_delay e i = Ok (d, name)
         /\ (d == Qmin (base_delay (retry_config_of (exn_class e)) * 2 ^ i)
                       (max_delay (retry_config_of (exn_class e))))%Q).
Proof.
  intros H.
  destruct (H (mkExn YandexAPIError "") 1024 ltac:(lia)) as (d & name & Hd & _).
  rewrite error_delay_overflows in Hd by lia. discriminate.
Qed.

(** C5, as amended: for the attempts 0 to 1023 the delay is
    [min(base_delay * 2 ** i, max_delay)] for the pair of the class of the
    error (1.0 and 10 for YandexAPIError, 2.0 and 30 for
    YandexRequestError, 1.0 and 15 for any other class); it does not
    decrease with the attempt and never exceeds the cap. *)
Theorem error_delay_capped_exponential (e : exn) (i j : Z) :
  0 <= i -> i <= j -> j <= 1023 ->
  let config := retry_config_of (exn_class e) in
  exists di dj,
    error_delay e i = Ok (di, class_name (exn_class e))
    /\ error_delay e j = Ok (dj, class_name (exn_class e))
    /\ (di == Qmin (base_delay config * 2 ^ i) (max_delay config))%Q
    /\ (di <= dj)%Q
    /\ (dj <= max_delay config)%Q
    /\ retry_config_of YandexAPIError = mkConfig 1 10
    /\ retry_config_of YandexRequestError = mkConfig 2 30
    /\ (recognized (exn_class e) = false -> config = mkConfig 1 15).
Proof.
  intros Hi Hij Hj config.
  unfold error_delay. fold config.
  rewrite !backoff_pow_in_range by lia.
  do 2 eexists. split; [reflexivity|]. split; [reflexivity|].
  split; [apply py_min_Qmin|].
  split.
  { rewrite !py_min_Qmin. apply Q.min_le_compat_r.
    rewrite !(Qmult_comm (base_delay config)).
    apply Qmult_le_compat_r; [|apply base_delay_nonneg].
    apply Qpower_le_compat_l; [assumption|discriminate]. }
  split; [rewrite py_min_Qmin; apply Q.le_min_r|].
  split; [reflexivity|]. split; [reflexivity|].
  intros H. unfold config. destruct (exn_class e); try reflexivity; discriminate.
Qed.

Lemma error_delay_capped_exponential_witness :
  exists di dj,
    error_delay (mkExn YandexRequestError "timeout") 1
    = Ok (di, class_name YandexRequestError)
    /\ error_delay (mkExn YandexRequestError "timeout") 4
       = Ok (dj, class_name YandexRequestError)
    /\ (di == Qmin (2 * 2 ^ 1) 30)%Q
    /\ (di <= dj)%Q
    /\ (dj <= 30)%Q
    /\ retry_config_of YandexAPIError = mkConfig 1 10
    /\ retry_config_of YandexRequestError = mkConfig 2 30
    /\ (recognized YandexRequestError = false
        -> retry_config_of YandexRequestError = mkConfig 1 15).
Proof.
  apply (error_delay_capped_exponential (mkExn YandexRequestError "timeout") 1 4);
    lia.
Defined.

(** ** Retry of one chunk and the batch *)

Lemma error_delay_in_range (e : exn) (attempt : Z) :
  0 <= attempt <= 1023 ->
  error_delay e attempt
  = Ok (py_min (base_delay (retry_config_of (exn_class e)) * 2 ^ attempt)
               (max_delay (retry_config_of (exn_class e))),
        class_name (exn_class e)).
Proof.
  intros H. unfold error_delay. now rewrite backoff_pow_in_range.
Qed.

Section BatchFacts.

Variable World : Type.
Variable A : Type.
Variable remote_call : str -> World -> result A * World.
Variable join : list A -> result string.
Variable progress_words : string.

Lemma error_delay_ok (e : exn) (attempt : Z) :
  0 <= attempt <= 1023 ->
  exists d, error_delay e attempt = Ok (d, class_name (exn_class e)).
Proof.
  intros H. unfold error_delay. rewrite backoff_pow_in_range by assumption.
  eauto.
Qed.

Lemma exhausts_recognized (chunk : str) (last : exn) (w' : World) :
  forall k w, exhausts remote_call k chunk w last w' ->
              recognized (exn_class last) = true.
Proof.
  induction k as [|k IH]; intros w H; [contradiction|].
  destruct H as (e & w1 & _ & Hr & H). destruct k.
  - destruct H as [<- _]. assumption.
  - eapply IH. eassumption.
Qed.

(** Within the range of the float power, a chunk all of whose attempts
    fail ends in [raise last_exception]. *)
Lemma retry_loop_exhausts (chunk : str) (max_retries : Z) (last : exn)
    (w' : World) :
  forall k attempt last0 st,
    0 <= attempt -> attempt + Z.of_nat k <= 1024 ->
    exhausts remote_call k chunk (fst st) last w' ->
    exists slept,
      retry_loop remote_call k chunk max_retries attempt last0 st
      = (Raise last, (w', slept)).
Proof.
  induction k as [|k IH]; intros attempt last0 st Ha Hk Hex; [contradiction|].
  destruct Hex as (e & w1 & Ht & Hrec & Hrest).
  cbn [retry_loop]. rewrite Ht, Hrec.
  destruct (error_delay_ok e attempt ltac:(lia)) as [d ->].
  destruct k as [|k'].
  - destruct Hrest as [-> ->].
    destruct (attempt <? max_retries - 1); cbn [retry_loop]; eauto.
  - destruct (attempt <? max_retries - 1); apply IH; simpl; try lia; assumption.
Qed.

Lemma transformed_length (chunks : list str) (max_retries : Z) :
  forall results st st',
    transformed remote_call chunks max_retries st results st' ->
    List.length results = List.length chunks.
Proof.
  induction chunks as [|c chunks IH]; intros [|r results] st st' H;
    try contradiction; [reflexivity|].
  destruct H as (st1 & _ & H). simpl. f_equal. eapply IH. eassumption.
Qed.

Lemma batch_loop_transformed (max_retries : Z) (total : nat) (more : list str) :
  forall chunks results acc st st',
    transformed remote_call chunks max_retries st results st' ->
    batch_loop remote_call progress_words (chunks ++ more) max_retries total
               acc st
    = batch_loop remote_call progress_words more max_retries total
                 (acc ++ results) st'.
Proof.
  induction chunks as [|c chunks IH]; intros [|r results] acc st st' H;
    try contradiction.
  - simpl in H. subst. rewrite app_nil_r. reflexivity.
  - destruct H as (st1 & Hc & H). cbn [app batch_loop].
    rewrite Hc. rewrite (IH _ _ _ _ H). rewrite <- app_assoc. reflexivity.
Qed.

(** The batch stops at a chunk whose retry wrapper raises a recognized
    error, and reports the count of the chunks before it. *)
Lemma batch_stops_at_failure (done rest : list str) (failing : str)
    (max_retries : Z) (st st1 st2 : state World) (results : list A) (e : exn) :
  transformed remote_call done max_retries st results st1 ->
  chunk_with_retry remote_call failing max_retries st1 = (Raise e, st2) ->
  recognized (exn_class e) = true ->
  run_batch remote_call join progress_words (done ++ failing :: rest)
            max_retries st
  = (Raise (progress_note progress_words e (List.length done)
                          (List.length (done ++ failing :: rest))), st2).
Proof.
  intros Hdone Hfail Hrec. unfold run_batch.
  rewrite (batch_loop_transformed _ _ _ _ _ _ _ _ Hdone).
  cbn [batch_loop app]. rewrite Hfail, Hrec.
  rewrite (transformed_length _ _ _ _ _ Hdone). reflexivity.
Qed.

(** C4, as amended: when at most 1024 attempts are allowed and a chunk
    exhausts all of them with recognized errors, the batch stops there (the
    world is the one its last attempt left, no later chunk is tried) and
    raises an error of the class of the last failure whose message is the
    last message followed by the note of N chunks done out of M; the
    results of the N chunks are not part of the outcome. *)
Theorem batch_partial_failure (done rest : list str) (failing : str)
    (max_retries : Z) (st st1 : state World) (results : list A)
    (last : exn) (w2 : World) :
  max_retries <= 1024 ->
  transformed remote_call done max_retries st results st1 ->
  exhausts remote_call (Z.to_nat max_retries) failing (fst st1) last w2 ->
  exists slept,
    run_batch remote_call join progress_words (done ++ failing :: rest)
              max_retries st
    = (Raise (mkExn (exn_class last)
                (exn_msg last ++ lf ++ "[" ++ progress_words ++ " "
                   ++ decimal (List.length done) ++ "/"
                   ++ decimal (List.length (done ++ failing :: rest))
                   ++ " чанков]")),
       (w2, slept))
    /\ recognized (exn_class last) = true.
Proof.
  intros Hmax Hdone Hex.
  pose proof (exhausts_recognized _ _ _ _ _ Hex) as Hrec.
  destruct (retry_loop_exhausts failing max_retries last w2
              (Z.to_nat max_retries) 0 None st1 ltac:(lia) ltac:(lia) Hex)
    as [slept Hretry].
  exists slept. split; [|assumption].
  apply batch_stops_at_failure with (results := results) (st1 := st1);
    assumption.
Qed.

Lemma retry_loop_fails_with (chunk : str) (max_retries : Z) (e : exn)
    (w' : World) :
  forall errors k attempt last st,
    fails_with remote_call errors chunk (fst st) e w' ->
    recognized (exn_class e) = false ->
    0 <= attempt ->
    attempt + Z.of_nat (List.length errors) <= 1024 ->
    attempt + Z.of_nat (List.length errors) < max_retries ->
    (List.length errors < k)%nat ->
    retry_loop remote_call k chunk max_retries attempt last st
    = (Raise e, (w', snd st ++ backoff_delays errors attempt)).
Proof.
  induction errors as [|e0 errors IH];
    intros k attempt last st Hfail Hrec Ha H1024 Hmax Hk;
    (destruct k as [|k]; [simpl in Hk; lia|]); cbn [retry_loop].
  - simpl in Hfail. rewrite Hfail, Hrec. cbn [backoff_delays].
    now rewrite app_nil_r.
  - destruct Hfail as (w1 & Hcall & Hr & Hrest). cbn [List.length] in *.
    rewrite Hcall, Hr, error_delay_in_range by lia.
    destruct (attempt <? max_retries - 1) eqn:E; [|lia].
    rewrite IH; try assumption; try lia; cbn [fst snd backoff_delays].
    now rewrite <- app_assoc.
Qed.


End BatchFacts.

Lemma exhausts_always_down (chunk : str) (k : nat) :
  exhausts always_down (S k) chunk tt request_down tt.
Proof.
  induction k as [|k IH].
  - exists request_down, tt. repeat split.
  - exists request_down, tt. split; [reflexivity|]. split; [reflexivity|exact IH].
Qed.

(** C4, as stated, fails with 1025 attempts: all of them fail with a
    recognized error, and the batch raises the OverflowError of the delay
    computation of the last one. *)
Lemma batch_overflow_counterexample :
  exhausts always_down 1025 (Py.of_string "a") tt request_down tt
  /\ fst (run_batch always_down join_translated "было переведено"
            [Py.of_string "a"] 1025 (tt, []))
     = Raise overflow_error
  /\ exn_class overflow_error <> exn_class request_down.
Proof.
  split; [apply (exhausts_always_down _ 1024)|].
  split; [vm_compute; reflexivity|discriminate].
Qed.

Lemma batch_partial_failure_witness :
  exists slept,
    run_batch down_on_b join_translated "было переведено"
      [Py.of_string "a"; Py.of_string "b"; Py.of_string "c"] 3 (tt, [])
    = (Raise (mkExn YandexRequestError
                ("down" ++ lf ++ "[было переведено 1/3 чанков]")),
       (tt, slept))
    /\ recognized YandexRequestError = true.
Proof.
  apply (batch_partial_failure unit string down_on_b join_translated
           "было переведено" [Py.of_string "a"] [Py.of_string "c"]
           (Py.of_string "b") 3 (tt, []) (tt, []) ["ok"%string]
           request_down tt).
  - lia.
  - exists (tt, []). split; reflexivity.
  - exists request_down, tt. split; [reflexivity|]. split; [reflexivity|].
    exists request_down, tt. split; [reflexivity|]. split; [reflexivity|].
    exists request_down, tt. repeat split.
Defined.


(** ** The built-in transforms *)

Lemma request_delays_cons (attempt : Z) (n : nat) :
  request_delays attempt (S n)
  = py_min (2 * 2 ^ attempt) 30 :: request_delays (attempt + 1) n.
Proof.
  unfold request_delays. cbn [seq map]. rewrite Z.add_0_r. f_equal.
  rewrite <- seq_shift, map_map. apply map_ext. intros a.
  do 3 f_equal. lia.
Qed.

Lemma request_delays_are_request_delays (n : nat) :
  forall attempt, 0 <= attempt ->
    Forall is_request_delay (request_delays attempt n).
Proof.
  induction n as [|n IH]; intros attempt Ha; [constructor|].
  rewrite request_delays_cons. constructor; [|apply IH; lia].
  exists attempt. split; [assumption|reflexivity].
Qed.

Lemma wrap_request_error_class {B : Type} (prefix : string) (body : result B)
    (e : exn) :
  wrap_request_error prefix body = Raise e ->
  exn_class e = YandexRequestError \/ exists name, exn_class e = NonException name.
Proof.
  unfold wrap_request_error. destruct body as [b|e0]; [discriminate|].
  destruct (exn_class e0) eqn:E; intros [= <-]; simpl; eauto.
Qed.

(** A retry loop whose transform only fails as the built-in ones do
    sleeps the delays of the YandexRequestError schedule and no other. *)
Lemma retry_loop_request_delays (B : Type)
    (remote_call : str -> nat -> result B * nat) (chunk : str)
    (max_retries : Z) :
  (forall w e w', remote_call chunk w = (Raise e, w') ->
                  builtin_failure chunk e) ->
  forall k attempt last st res st',
    0 <= attempt ->
    retry_loop remote_call k chunk max_retries attempt last st = (res, st') ->
    exists n, snd st' = snd st ++ request_delays attempt n
              /\ Z.of_nat n <= Z.max 0 (max_retries - 1 - attempt).
Proof.
  intros Hfail. induction k as [|k IH]; intros attempt last st res st' Ha H.
  - exists 0%nat. cbn [retry_loop] in H. unfold request_delays. simpl.
    rewrite app_nil_r. split; [|lia].
    destruct last; injection H as _ <-; reflexivity.
  - cbn [retry_loop] in H.
    destruct (remote_call chunk (fst st)) as [[r|e] w] eqn:Et.
    { injection H as _ <-. exists 0%nat. unfold request_delays. simpl.
      rewrite app_nil_r. split; [reflexivity|lia]. }
    destruct (recognized (exn_class e)) eqn:Hrec.
    2:{ injection H as _ <-. exists 0%nat. unfold request_delays. simpl.
        rewrite app_nil_r. split; [reflexivity|lia]. }
    assert (Hc : exn_class e = YandexRequestError).
    { destruct (Hfail _ _ _ Et) as [Hc|[[_ Hc]|[name Hc]]];
        [assumption|rewrite Hc in Hrec; discriminate..]. }
    unfold error_delay, backoff_pow in H. rewrite Hc in H.
    destruct (1024 <=? attempt).
    { injection H as _ <-. exists 0%nat. unfold request_delays. simpl.
      rewrite app_nil_r. split; [reflexivity|lia]. }
    destruct (attempt <? -1074) eqn:E; [lia|].
    destruct (attempt <? max_retries - 1) eqn:El.
    + apply IH in H; [|lia]. destruct H as (n & Hn & Hle).
      exists (S n). rewrite request_delays_cons. simpl in Hn.
      rewrite Hn, <- app_assoc. split; [reflexivity|lia].
    + apply IH in H; [|lia]. destruct H as (n & Hn & Hle).
      assert (n = 0%nat) as -> by lia.
      exists 0%nat. split; [exact Hn|lia].
Qed.

(** The same for a whole batch. *)
Lemma batch_loop_request_delays (B : Type)
    (remote_call : str -> nat -> result B * nat) (progress_words : string)
    (max_retries : Z) (total : nat) :
  (forall chunk w e w', remote_call chunk w = (Raise e, w') ->
                        builtin_failure chunk e) ->
  forall chunks acc st res st',
    batch_loop remote_call progress_words chunks max_retries total acc st
    = (res, st') ->
    Forall is_request_delay (snd st) -> Forall is_request_delay (snd st').
Proof.
  intros Hfail. induction chunks as [|chunk chunks IH];
    intros acc st res st' H Hall; cbn [batch_loop] in H.
  - injection H as _ <-. assumption.
  - destruct (chunk_with_retry remote_call chunk max_retries st)
      as [[r|e] st1] eqn:Ec;
      unfold chunk_with_retry in Ec;
      apply retry_loop_request_delays in Ec; try lia; try apply Hfail;
      destruct Ec as (n & Hn & _);
      assert (Hall1 : Forall is_request_delay (snd st1))
        by (rewrite Hn; apply Forall_app; split;
            [assumption|apply request_delays_are_request_delays; lia]).
    + eapply IH; eassumption.
    + destruct (recognized (exn_class e)); injection H as _ <-; assumption.
Qed.

Lemma _yandex_batch_request_delays (B : Type)
    (remote_call : str -> nat -> result B * nat)
    (join : list B -> result string) (progress_words : string)
    (fuel : nat) (input_text : str) (max_retries : Z)
    (st st' : state nat) (res : result string) :
  (forall chunk w e w', remote_call chunk w = (Raise e, w') ->
                        builtin_failure chunk e) ->
  _yandex_batch remote_call join progress_words fuel input_text max_retries st
  = Some (res, st') ->
  Forall is_request_delay (snd st) -> Forall is_request_delay (snd st').
Proof.
  intros Hfail. unfold _yandex_batch, run_batch.
  destruct (_smart_split fuel input_text 10000) as [[chunks|e]|];
    [| |discriminate].
  - destruct (batch_loop _ _ _ _ _ _ _) as [[rs|e] st1] eqn:Eb;
      intros [= _ <-]; eapply batch_loop_request_delays; eassumption.
  - intros [= _ <-]. trivial.
Qed.

Section TransformFacts.

Variable lower : str -> str.
Variable json_repr : json -> string.
Variable answers : nat -> remote.

Lemma _detect_lang_pair_raises (text : str) (e : exn) :
  _detect_lang_pair lower text = Raise e -> text = [] /\ exn_class e = ValueError.
Proof.
  unfold _detect_lang_pair. destruct text; [intros [= <-]; auto|].
  destruct (count_letters _ 0 0). discriminate.
Qed.

Lemma _yandex_translate_raises (text : str) (r : remote) (e : exn) :
  _yandex_translate lower json_repr text r = Raise e -> builtin_failure text e.
Proof.
  unfold _yandex_translate, builtin_failure.
  destruct (_detect_lang_pair lower text) as [pair|e0] eqn:E.
  - intros H. apply wrap_request_error_class in H. tauto.
  - intros [= <-]. apply _detect_lang_pair_raises in E. tauto.
Qed.

Lemma _yandex_editor_api_raises (text : str) (r : remote) (e : exn) :
  _yandex_editor_api lower json_repr text r = Raise e -> builtin_failure text e.
Proof.
  unfold _yandex_editor_api, builtin_failure.
  destruct (_detect_lang_pair lower text) as [pair|e0] eqn:E.
  - intros H. apply wrap_request_error_class in H. tauto.
  - intros [= <-]. apply _detect_lang_pair_raises in E. tauto.
Qed.

Lemma builtin_failure_not_api (text : str) (e : exn) :
  builtin_failure text e -> exn_class e <> YandexAPIError.
Proof. intros [Hc|[[_ Hc]|[name Hc]]]; rewrite Hc; discriminate. Qed.

(** C10, as amended: a failure of a built-in transform is a
    YandexRequestError, except that the ValueError of the language
    detection on an empty text, raised before the [try], and an exception
    outside [Exception] pass unwrapped; it is never a YandexAPIError, and
    every delay slept by [translate] and [transform] is one of the
    YandexRequestError schedule (2.0 s base, 30 s cap). *)
Theorem builtin_transform_failures :
  (forall text r e,
     _yandex_translate lower json_repr text r = Raise e ->
     exn_class e <> YandexAPIError
     /\ (exn_class e = YandexRequestError
         \/ (text = [] /\ exn_class e = ValueError)
         \/ exists name, exn_class e = NonException name))
  /\ (forall text r e,
        _yandex_editor_api lower json_repr text r = Raise e ->
        exn_class e <> YandexAPIError
        /\ (exn_class e = YandexRequestError
            \/ (text = [] /\ exn_class e = ValueError)
            \/ exists name, exn_class e = NonException name))
  /\ (forall fuel input_text st res st',
        translate lower json_repr answers fuel input_text st = Some (res, st') ->
        Forall is_request_delay (snd st) -> Forall is_request_delay (snd st'))
  /\ (forall fuel input_text st res st',
        transform lower json_repr answers fuel input_text st = Some (res, st') ->
        Forall is_request_delay (snd st) -> Forall is_request_delay (snd st')).
Proof.
  split; [|split; [|split]].
  - intros text r e H. apply _yandex_translate_raises in H.
    split; [eapply builtin_failure_not_api; eassumption|exact H].
  - intros text r e H. apply _yandex_editor_api_raises in H.
    split; [eapply builtin_failure_not_api; eassumption|exact H].
  - intros fuel input_text st res st'. unfold translate, _yandex_translate_batch.
    apply _yandex_batch_request_delays.
    intros chunk w e w'. unfold translate_transform. intros [= He _].
    eapply _yandex_translate_raises. eassumption.
  - intros fuel input_text st res st'. unfold transform, _yandex_editor_batch.
    apply _yandex_batch_request_delays.
    intros chunk w e w'. unfold editor_transform. intros [= He _].
    eapply _yandex_editor_api_raises. eassumption.
Qed.

End TransformFacts.

(** C10, as stated, fails on the empty text: the ValueError of
    [_detect_lang_pair] leaves [_yandex_translate] as it is. *)
Lemma translate_failure_counterexample :
  ~ (forall text r e,
       _yandex_translate (fun t => t) (fun _ => EmptyString) text r = Raise e ->
       exn_class e = YandexRequestError).
Proof.
  intros H.
  specialize (H [] (mkRemote (Ok None) (Ok tt) (Ok JNull)) _ eq_refl).
  discriminate H.
Qed.

(** The service answers, but without the awaited field: the
    YandexAPIError raised inside is wrapped. *)
Lemma builtin_transform_failures_witness :
  let r := mkRemote (Ok (Some "sid"%string)) (Ok tt) (Ok (JDict [])) in
  let e := mkExn YandexRequestError
             ("ОШИБКА при переводе текста: "
                ++ exn_msg (missing_text_error (fun _ => "{}"%string) (JDict []))) in
  exn_class e <> YandexAPIError
  /\ (exn_class e = YandexRequestError
      \/ (Py.of_string "hello" = [] /\ exn_class e = ValueError)
      \/ exists name, exn_class e = NonException name).
Proof.
  intros r e.
  apply (proj1 (builtin_transform_failures (fun t => t) (fun _ => "{}"%string)
                  (fun _ => r)) (Py.of_string "hello") r e).
  reflexivity.
Defined.

(** * Further properties *)

(** ** Decoding of the session key *)

Lemma py_split_nonempty (sep : Py.char) (s : str) : py_split sep s <> [].
Proof.
  induction s as [|c s IH]; cbn [py_split]; [discriminate|].
  destruct (N.eqb c sep); [discriminate|].
  destruct (py_split sep s); [congruence|discriminate].
Qed.

Lemma py_split_no_sep (sep : Py.char) (s : str) :
  Forall (fun part => ~ In sep part) (py_split sep s).
Proof.
  induction s as [|c s IH]; cbn [py_split].
  - constructor; [intros []|constructor].
  - destruct (N.eqb c sep) eqn:E.
    + constructor; [intros []|assumption].
    + apply N.eqb_neq in E.
      destruct (py_split sep s) as [|part parts]; inversion IH; subst;
        constructor; try assumption; try constructor.
      * intros [H|[]]. congruence.
      * intros [H|H]; [congruence|contradiction].
Qed.

Lemma py_split_plain (sep : Py.char) (part : str) :
  ~ In sep part -> py_split sep part = [part].
Proof.
  induction part as [|c part IH]; intros H; cbn [py_split]; [reflexivity|].
  destruct (N.eqb c sep) eqn:E.
  - apply N.eqb_eq in E. subst. contradiction H. left. reflexivity.
  - rewrite IH; [reflexivity|]. intros Hin. apply H. right. assumption.
Qed.

Lemma py_split_app (sep : Py.char) (part rest : str) :
  ~ In sep part ->
  py_split sep (part ++ sep :: rest) = part :: py_split sep rest.
Proof.
  induction part as [|c part IH]; intros H; cbn [py_split app].
  - rewrite N.eqb_refl. reflexivity.
  - destruct (N.eqb c sep) eqn:E.
    + apply N.eqb_eq in E. subst. contradiction H. left. reflexivity.
    + rewrite IH; [reflexivity|]. intros Hin. apply H. right. assumption.
Qed.

Lemma py_join_cons (sep part : str) (parts : list str) :
  parts <> [] -> py_join sep (part :: parts) = part ++ sep ++ py_join sep parts.
Proof. destruct parts; [congruence|reflexivity]. Qed.

(** Joining the parts of a split with the separator gives the string
    back, and splitting a join of parts that hold no separator gives the
    parts back. *)
Lemma py_split_join_round_trip (sep : Py.char) :
  (forall s, py_join [sep] (py_split sep s) = s)
  /\ (forall parts,
        parts <> [] -> Forall (fun part => ~ In sep part) parts ->
        py_split sep (py_join [sep] parts) = parts).
Proof.
  split.
  - induction s as [|c s IH]; [reflexivity|]. cbn [py_split].
    destruct (N.eqb c sep) eqn:E.
    + apply N.eqb_eq in E. subst c.
      rewrite py_join_cons by apply py_split_nonempty. rewrite IH. reflexivity.
    + pose proof (py_split_nonempty sep s) as Hne.
      destruct (py_split sep s) as [|p ps] eqn:Es; [congruence|].
      destruct ps as [|q ps].
      * cbn [py_join] in *. now rewrite IH.
      * rewrite <- IH. rewrite !py_join_cons by discriminate. reflexivity.
  - induction parts as [|p parts IH]; intros Hne Hall; [congruence|].
    inversion Hall as [|? ? Hp Hall']; subst.
    destruct parts as [|q parts].
    + cbn [py_join]. apply py_split_plain. assumption.
    + rewrite py_join_cons by discriminate. cbn [app].
      rewrite py_split_app by assumption.
      f_equal. apply IH; [discriminate|assumption].
Qed.

Lemma is_dot_plain (part : str) :
  ~ In dot part ->
  map (N.eqb dot) part = repeat false (List.length part).
Proof.
  induction part as [|c part IH]; intros H; [reflexivity|].
  cbn [map List.length repeat].
  destruct (N.eqb dot c) eqn:E.
  - apply N.eqb_eq in E. subst. contradiction H. left. reflexivity.
  - f_equal. apply IH. intros Hin. apply H. right. assumption.
Qed.

Lemma is_dot_join_rev (parts : list str) :
  Forall (fun part => ~ In dot part) parts ->
  map (N.eqb dot) (py_join [dot] (map (@rev Py.char) parts))
  = map (N.eqb dot) (py_join [dot] parts).
Proof.
  unfold Py.str, Py.char in *.
  induction parts as [|p parts IH]; intros Hall; [reflexivity|].
  inversion Hall as [|? ? Hp Hall']; subst.
  assert (Hrev : map (N.eqb dot) (rev p) = map (N.eqb dot) p).
  { rewrite !is_dot_plain; [now rewrite length_rev|assumption|].
    intros Hin. apply Hp. apply in_rev. assumption. }
  destruct parts as [|q parts]; [cbn [map py_join]; assumption|].
  change (map (N.eqb dot)
            (rev p ++ [dot] ++ py_join [dot] (map (@rev N) (q :: parts)))
          = map (N.eqb dot) (p ++ [dot] ++ py_join [dot] (q :: parts))).
  rewrite !map_app. f_equal; [exact Hrev|]. f_equal. apply IH. assumption.
Qed.

(** X11: the dots of a session key stay where they are, and so does its
    length. *)
Theorem decode_sid_keeps_dots (sid : str) :
  map (N.eqb dot) (_decode_sid sid) = map (N.eqb dot) sid
  /\ len (_decode_sid sid) = len sid.
Proof.
  assert (H : map (N.eqb dot) (_decode_sid sid) = map (N.eqb dot) sid).
  { destruct sid as [|c sid]; [reflexivity|]. unfold _decode_sid.
    rewrite is_dot_join_rev by apply py_split_no_sep.
    now rewrite (proj1 (py_split_join_round_trip dot)). }
  split; [assumption|].
  unfold Py.len. f_equal.
  apply (f_equal (@List.length bool)) in H. rewrite !length_map in H.
  exact H.
Qed.

Lemma _decode_sid_eq (sid : str) :
  _decode_sid sid = py_join [dot] (map (@rev Py.char) (py_split dot sid)).
Proof. destruct sid; reflexivity. Qed.

(** X10: decoding twice gives the session key back. *)
Theorem decode_sid_involutive (sid : str) :
  _decode_sid (_decode_sid sid) = sid.
Proof.
  rewrite (_decode_sid_eq (_decode_sid sid)), (_decode_sid_eq sid).
  rewrite (proj2 (py_split_join_round_trip dot)).
  - rewrite map_map.
    rewrite (map_ext _ (fun p => p)) by apply rev_involutive.
    rewrite map_id. apply (proj1 (py_split_join_round_trip dot)).
  - intros Hm. apply map_eq_nil in Hm.
    exact (py_split_nonempty dot sid Hm).
  - apply Forall_map.
    eapply Forall_impl; [|apply py_split_no_sep].
    intros p Hp Hin. apply Hp. apply in_rev. assumption.
Qed.

(** ** Language detection *)

Lemma cyrillic_not_latin (c : Py.char) : is_cyrillic c = true -> is_latin c = false.
Proof.
  unfold is_cyrillic, is_latin. intros H.
  apply orb_prop in H. destruct H as [H|H].
  - apply andb_prop in H. destruct H as [H1 H2].
    apply N.leb_le in H1. apply andb_false_iff. right. apply N.leb_gt. lia.
  - apply N.eqb_eq in H. subst. reflexivity.
Qed.

Lemma count_letters_spec (chars : str) :
  forall cyrillic_count latin_count,
    count_letters chars cyrillic_count latin_count
    = ((cyrillic_count + List.length (filter is_cyrillic chars))%nat,
       (latin_count + List.length (filter is_latin chars))%nat).
Proof.
  induction chars as [|c chars IH]; intros a b; cbn [count_letters filter].
  - now rewrite !Nat.add_0_r.
  - destruct (is_cyrillic c) eqn:Ec.
    + rewrite (cyrillic_not_latin c Ec), IH. cbn [List.length]. f_equal; lia.
    + destruct (is_latin c); rewrite IH; cbn [List.length]; f_equal; lia.
Qed.

(** X12: the language of a text that is not empty is English when the
    lower-cased text holds more Latin letters than Cyrillic ones, and
    Russian otherwise, ties and texts with no letter included; the second
    language is the other one. *)
Theorem detect_lang_pair_majority (lower : str -> str) (text : str) :
  text <> [] ->
  let cyrillic := List.length (filter is_cyrillic (lower text)) in
  let latin := List.length (filter is_latin (lower text)) in
  _detect_lang_pair lower text
  = Ok (if (cyrillic <? latin)%nat then ("en", "ru") else ("ru", "en"))%string.
Proof.
  intros Hne cyrillic latin. unfold _detect_lang_pair.
  destruct text as [|c text]; [congruence|].
  rewrite count_letters_spec. cbn [Nat.add]. fold cyrillic latin.
  destruct (latin <? cyrillic)%nat eqn:E1.
  - apply Nat.ltb_lt in E1.
    destruct (cyrillic <? latin)%nat eqn:E2; [apply Nat.ltb_lt in E2; lia|].
    reflexivity.
  - destruct (cyrillic <? latin)%nat; reflexivity.
Qed.

(** "hi" followed by the three Cyrillic letters of "мир". *)
Lemma detect_lang_pair_majority_witness :
  _detect_lang_pair (fun t => t)
                    (Py.of_string "hi " ++ [1084; 1080; 1088]%N)
  = Ok ("ru", "en")%string.
Proof.
  apply (detect_lang_pair_majority (fun t => t)
           (Py.of_string "hi " ++ [1084; 1080; 1088]%N)).
  discriminate.
Defined.

(** ** The backoff policy, further *)

Lemma config_cases (c : exc_class) :
  retry_config_of c = mkConfig 1 10
  \/ retry_config_of c = mkConfig 2 30
  \/ retry_config_of c = mkConfig 1 15.
Proof. destruct c; auto. Qed.

Lemma pow2_ge_16 (i : Z) : 4 <= i -> (16 <= 2 ^ i)%Q.
Proof.
  intros H. change 16%Q with (2 ^ 4)%Q.
  apply Qpower_le_compat_l; [assumption|discriminate].
Qed.

Lemma Qmult_le_mono (a x y : Q) : (0 <= a -> x <= y -> a * x <= a * y)%Q.
Proof.
  intros Ha H. rewrite !(Qmult_comm a). apply Qmult_le_compat_r; assumption.
Qed.

(** X13: from the attempt 0, where it is the base delay, the delay never goes
    below the base delay, and from the attempt 4 on it is the cap of the
    class, whatever the class. *)
Theorem error_delay_saturates (e : exn) (i : Z) :
  0 <= i <= 1023 ->
  let config := retry_config_of (exn_class e) in
  exists d,
    error_delay e i = Ok (d, class_name (exn_class e))
    /\ (base_delay config <= d)%Q
    /\ (i = 0 -> (d == base_delay config)%Q)
    /\ (4 <= i -> (d == max_delay config)%Q).
Proof.
  intros Hi config. unfold error_delay. fold config.
  rewrite backoff_pow_in_range by assumption.
  eexists. split; [reflexivity|].
  assert (H1 : (1 <= 2 ^ i)%Q) by (apply Qpower_1_le; [discriminate|lia]).
  assert (Hb : (0 <= base_delay config)%Q) by apply base_delay_nonneg.
  assert (Hge : (base_delay config <= base_delay config * 2 ^ i)%Q).
  { rewrite <- (Qmult_1_r (base_delay config)) at 1.
    apply Qmult_le_mono; assumption. }
  rewrite py_min_Qmin.
  split; [|split].
  - apply Q.min_glb; [assumption|].
    unfold config. destruct (config_cases (exn_class e)) as [-> | [-> | ->]];
      discriminate.
  - intros ->. unfold config.
    destruct (config_cases (exn_class e)) as [-> | [-> | ->]]; reflexivity.
  - intros H4. apply Q.min_r.
    apply Qle_trans with (base_delay config * 16)%Q.
    + unfold config. destruct (config_cases (exn_class e)) as [-> | [-> | ->]];
        discriminate.
    + apply Qmult_le_mono; [assumption|apply pow2_ge_16; assumption].
Qed.

Lemma error_delay_saturates_witness :
  exists d,
    error_delay (mkExn YandexAPIError "no text") 5
    = Ok (d, class_name YandexAPIError)
    /\ (1 <= d)%Q
    /\ (5 = 0 -> (d == 1)%Q)
    /\ (4 <= 5 -> (d == 10)%Q).
Proof.
  apply (error_delay_saturates (mkExn YandexAPIError "no text") 5). lia.
Defined.

(** ** Retry of one chunk and the batch, further *)

Lemma delay_between_1_and_30 (c : exc_class) (attempt : Z) :
  0 <= attempt ->
  let d := py_min (base_delay (retry_config_of c) * 2 ^ attempt)
                  (max_delay (retry_config_of c)) in
  (1 <= d /\ d <= 30)%Q.
Proof.
  intros Ha d. unfold d. rewrite py_min_Qmin.
  assert (H1 : (1 <= 2 ^ attempt)%Q) by (apply Qpower_1_le; [discriminate|lia]).
  split.
  - apply Q.min_glb.
    + apply Qle_trans with (base_delay (retry_config_of c) * 1)%Q.
      * destruct (config_cases c) as [-> | [-> | ->]]; discriminate.
      * apply Qmult_le_mono; [apply base_delay_nonneg|assumption].
    + destruct (config_cases c) as [-> | [-> | ->]]; discriminate.
  - apply Qle_trans with (max_delay (retry_config_of c)); [apply Q.le_min_r|].
    destruct (config_cases c) as [-> | [-> | ->]]; discriminate.
Qed.

Section BatchFurther.

Variable World : Type.
Variable A : Type.
Variable remote_call : str -> World -> result A * World.
Variable join : list A -> result string.
Variable progress_words : string.

Lemma retry_loop_recovers (chunk : str) (max_retries : Z) (r : A) (w' : World) :
  forall errors k attempt last st,
    recovers remote_call errors chunk (fst st) r w' ->
    0 <= attempt ->
    attempt + Z.of_nat (List.length errors) <= 1024 ->
    attempt + Z.of_nat (List.length errors) < max_retries ->
    (List.length errors < k)%nat ->
    retry_loop remote_call k chunk max_retries attempt last st
    = (Ok r, (w', snd st ++ backoff_delays errors attempt)).
Proof.
  induction errors as [|e errors IH]; intros k attempt last st Hrec Ha H1024 Hmax Hk;
    (destruct k as [|k]; [simpl in Hk; lia|]); cbn [retry_loop].
  - simpl in Hrec. rewrite Hrec. cbn [backoff_delays]. now rewrite app_nil_r.
  - destruct Hrec as (w1 & Hcall & Hr & Hrest). cbn [List.length] in *.
    rewrite Hcall, Hr, error_delay_in_range by lia.
    destruct (attempt <? max_retries - 1) eqn:E; [|lia].
    rewrite IH; try assumption; try lia; cbn [fst snd backoff_delays].
    now rewrite <- app_assoc.
Qed.

(** X16: a chunk whose transform fails with recognized errors fewer times
    than attempts are allowed, and then answers, is transformed: the
    result is that answer, and the delays slept are those of the errors,
    in their order, at the attempts 0, 1, ... *)
Theorem retry_recovers (chunk : str) (max_retries : Z) (errors : list exn)
    (st : state World) (r : A) (w' : World) :
  recovers remote_call errors chunk (fst st) r w' ->
  Z.of_nat (List.length errors) < max_retries ->
  Z.of_nat (List.length errors) <= 1024 ->
  chunk_with_retry remote_call chunk max_retries st
  = (Ok r, (w', snd st ++ backoff_delays errors 0)).
Proof.
  intros Hrec Hmax H1024. unfold chunk_with_retry.
  apply retry_loop_recovers; try assumption; lia.
Qed.

Lemma retry_loop_effort (chunk : str) (max_retries : Z) :
  forall k attempt last st res st',
    0 <= attempt ->
    retry_loop (counted remote_call) k chunk max_retries attempt last st
    = (res, st') ->
    exists delays,
      snd st' = snd st ++ delays
      /\ Z.of_nat (List.length delays) <= Z.max 0 (max_retries - 1 - attempt)
      /\ Forall (fun d => 1 <= d /\ d <= 30)%Q delays
      /\ (snd (fst st) <= snd (fst st') <= snd (fst st) + k)%nat.
Proof.
  induction k as [|k IH]; intros attempt last st res st' Ha H;
    cbn [retry_loop] in H.
  - exists []. rewrite app_nil_r.
    destruct last; injection H as _ <-;
      (split; [reflexivity|split; [simpl; lia|split; [constructor|lia]]]).
  - unfold counted at 1 in H.
    destruct (remote_call chunk (fst (fst st))) as [[r|e] w] eqn:Ec.
    { injection H as _ <-. exists []. rewrite app_nil_r. cbn [fst snd].
      split; [reflexivity|split; [simpl; lia|split; [constructor|lia]]]. }
    destruct (recognized (exn_class e)).
    2:{ injection H as _ <-. exists []. rewrite app_nil_r. cbn [fst snd].
        split; [reflexivity|split; [simpl; lia|split; [constructor|lia]]]. }
    unfold error_delay, backoff_pow in H.
    destruct (1024 <=? attempt).
    { injection H as _ <-. exists []. rewrite app_nil_r. cbn [fst snd].
      split; [reflexivity|split; [simpl; lia|split; [constructor|lia]]]. }
    destruct (attempt <? -1074) eqn:E; [lia|].
    destruct (attempt <? max_retries - 1) eqn:El;
      apply IH in H; try lia; destruct H as (delays & Hd & Hn & Hall & Hc);
      cbn [fst snd] in *.
    + eexists (_ :: delays). rewrite Hd, <- app_assoc.
      split; [reflexivity|]. cbn [List.length].
      split; [lia|]. split; [|lia].
      constructor; [|assumption].
      apply (delay_between_1_and_30 (exn_class e) attempt Ha).
    + exists delays. repeat split; try assumption; lia.
Qed.

(** X17: whatever the transform does, one chunk costs at most [max_retries]
    calls and at most [max_retries - 1] sleeps, each of 1 to 30 seconds. *)
Theorem retry_effort_bounded (chunk : str) (max_retries : Z)
    (st st' : state (World * nat)) (res : result A) :
  chunk_with_retry (counted remote_call) chunk max_retries st = (res, st') ->
  exists delays,
    snd st' = snd st ++ delays
    /\ Z.of_nat (List.length delays) <= Z.max 0 (max_retries - 1)
    /\ Forall (fun d => 1 <= d /\ d <= 30)%Q delays
    /\ (snd (fst st) <= snd (fst st'))%nat
    /\ Z.of_nat (snd (fst st')) <= Z.of_nat (snd (fst st)) + Z.max 0 max_retries.
Proof.
  unfold chunk_with_retry. intros H.
  apply retry_loop_effort in H; [|lia].
  destruct H as (delays & Hd & Hn & Hall & Hc).
  exists delays. repeat split; try assumption; lia.
Qed.

Lemma batch_loop_inversion (max_retries : Z) (total : nat) :
  forall chunks acc st res st',
    batch_loop remote_call progress_words chunks max_retries total acc st
    = (res, st') ->
    (exists results,
        res = Ok (acc ++ results)
        /\ transformed remote_call chunks max_retries st results st')
    \/ (exists done failing rest results st1 e0,
          chunks = done ++ failing :: rest
          /\ transformed remote_call done max_retries st results st1
          /\ chunk_with_retry remote_call failing max_retries st1
             = (Raise e0, st')
          /\ res = Raise (if recognized (exn_class e0)
                          then progress_note progress_words e0
                                 (List.length acc + List.length done) total
                          else e0)).
Proof.
  induction chunks as [|chunk chunks IH]; intros acc st res st' H;
    cbn [batch_loop] in H.
  - injection H as <- <-. left. exists []. rewrite app_nil_r.
    split; reflexivity.
  - destruct (chunk_with_retry remote_call chunk max_retries st)
      as [[r|e] st1] eqn:Ec.
    + apply IH in H. destruct H as [(results & -> & Ht)|H].
      * left. exists (r :: results). rewrite <- app_assoc. split; [reflexivity|].
        exists st1. split; assumption.
      * destruct H as (done & failing & rest & results & st2 & e0
                       & -> & Ht & Hf & ->).
        right. exists (chunk :: done), failing, rest, (r :: results), st2, e0.
        split; [reflexivity|]. split; [exists st1; split; assumption|].
        split; [assumption|]. rewrite length_app. cbn [List.length].
        replace (List.length acc + 1 + List.length done)%nat
          with (List.length acc + S (List.length done))%nat by lia.
        reflexivity.
    + right. exists [], chunk, chunks, [], st, e.
      split; [reflexivity|]. split; [reflexivity|].
      cbn [List.length]. rewrite Nat.add_0_r.
      destruct (recognized (exn_class e)); injection H as <- <-;
        (split; [exact Ec|reflexivity]).
Qed.

(** X18: the batch is all or nothing: it returns a text exactly when every
    chunk was transformed, in order, each within its retries, and the text
    is the join of the results in the order of the chunks. *)
Theorem batch_succeeds_iff (chunks : list str) (max_retries : Z)
    (st st' : state World) (text : string) :
  run_batch remote_call join progress_words chunks max_retries st
  = (Ok text, st')
  <-> exists results,
        transformed remote_call chunks max_retries st results st'
        /\ join results = Ok text.
Proof.
  unfold run_batch. split.
  - destruct (batch_loop _ _ _ _ _ _ _) as [[rs|e] st1] eqn:Eb; [|discriminate].
    intros [= Hj <-]. apply batch_loop_inversion in Eb.
    destruct Eb as [(results & [= ->] & Ht)|H].
    + exists results. split; assumption.
    + destruct H as (? & ? & ? & ? & ? & ? & _ & _ & _ & H). discriminate.
  - intros (results & Ht & Hj).
    pose proof (batch_loop_transformed World A remote_call progress_words
                  max_retries (List.length chunks) [] chunks results [] st st' Ht)
      as Hb.
    rewrite app_nil_r in Hb. rewrite Hb. cbn [batch_loop app]. rewrite Hj.
    reflexivity.
Qed.

(** X19: a batch that fails has transformed every chunk before one, on which
    the retries gave up; the error is the one of that chunk, and when it
    is of a recognized class it carries the progress note with the count
    of the chunks before it, which is below the total. *)
Theorem batch_failure_located (chunks : list str) (max_retries : Z)
    (st st' : state World) (e : exn) :
  batch_loop remote_call progress_words chunks max_retries
             (List.length chunks) [] st = (Raise e, st') ->
  exists done failing rest results st1 e0,
    chunks = done ++ failing :: rest
    /\ transformed remote_call done max_retries st results st1
    /\ chunk_with_retry remote_call failing max_retries st1 = (Raise e0, st')
    /\ (List.length done < List.length chunks)%nat
    /\ exn_class e = exn_class e0
    /\ (recognized (exn_class e0) = true ->
        e = progress_note progress_words e0 (List.length done)
                          (List.length chunks))
    /\ (recognized (exn_class e0) = false -> e = e0).
Proof.
  intros H. apply batch_loop_inversion in H.
  destruct H as [(results & H & _)|H]; [discriminate|].
  destruct H as (done & failing & rest & results & st1 & e0
                 & Hc & Ht & Hf & [= He]).
  exists done, failing, rest, results, st1, e0.
  split; [assumption|]. split; [assumption|]. split; [assumption|].
  split; [rewrite Hc, length_app; simpl; lia|].
  cbn [List.length Nat.add] in He.
  destruct (recognized (exn_class e0)); subst e;
    repeat split; try reflexivity; try discriminate; intros _; reflexivity.
Qed.

(** X20: with no attempt allowed the transform is never called: the retry
    wrapper raises the TypeError of [raise None], and the batch on any
    chunks lets it through at the first one, without a note. *)
Theorem batch_without_attempts (chunk : str) (rest : list str)
    (max_retries : Z) (st : state World) :
  max_retries <= 0 ->
  let type_error := mkExn TypeError "exceptions must derive from BaseException" in
  chunk_with_retry remote_call chunk max_retries st = (Raise type_error, st)
  /\ run_batch remote_call join progress_words (chunk :: rest) max_retries st
     = (Raise type_error, st).
Proof.
  intros Hmax type_error.
  assert (H : chunk_with_retry remote_call chunk max_retries st
              = (Raise type_error, st)).
  { unfold chunk_with_retry. replace (Z.to_nat max_retries) with 0%nat by lia.
    reflexivity. }
  split; [assumption|].
  unfold run_batch. cbn [batch_loop]. rewrite H. reflexivity.
Qed.

End BatchFurther.

(** ** The built-in transforms, further *)

Lemma string_app_empty_r (s : string) : (s ++ "")%string = s.
Proof. induction s as [|c s IH]; [reflexivity|]. simpl. now rewrite IH. Qed.

Lemma join_from_ok (items : list json) :
  forall (index : nat) (s : string),
    join_from index items = Ok s
    <-> exists strings, items = map JStr strings /\ s = String.concat "" strings.
Proof.
  induction items as [|item items IH]; intros index s.
  - split.
    + intros [= <-]. exists []. split; reflexivity.
    + intros (strings & Hm & ->). destruct strings; [reflexivity|discriminate].
  - split.
    + cbn [join_from]. destruct item; try discriminate.
      destruct (join_from (S index) items) as [t|e] eqn:E; [|discriminate].
      intros [= <-]. destruct (proj1 (IH (S index) t) E) as (strings & -> & ->).
      exists (s0 :: strings). split; [reflexivity|].
      destruct strings; simpl; [now rewrite string_app_empty_r|reflexivity].
    + intros (strings & Hm & ->). destruct strings as [|s0 strings];
        [discriminate|]. injection Hm as -> ->. cbn [join_from].
      rewrite (proj2 (IH (S index) (String.concat "" strings))) by eauto.
      destruct strings; simpl; [now rewrite string_app_empty_r|reflexivity].
Qed.

Lemma join_strings_ok (items : list json) (s : string) :
  join_strings items = Ok s
  <-> exists strings, items = map JStr strings /\ s = String.concat "" strings.
Proof. apply join_from_ok. Qed.

Lemma wrap_request_error_ok {B : Type} (prefix : string) (body : result B)
    (b : B) :
  wrap_request_error prefix body = Ok b <-> body = Ok b.
Proof.
  unfold wrap_request_error. destruct body as [b0|e]; [tauto|].
  destruct (exn_class e); split; discriminate.
Qed.

Lemma _make_yandex_request_ok (r : remote) (api_url : string) (v : json) :
  String.eqb api_url _EDIT_API_URL || String.eqb api_url _TRANSLATE_API_URL
  = true ->
  (_make_yandex_request r api_url = Ok v
   <-> (exists sid, get_sid r = Ok (Some sid) /\ sid <> EmptyString)
       /\ post r = Ok tt /\ resp_json r = Ok v).
Proof.
  intros Hurl. unfold _make_yandex_request. rewrite Hurl.
  destruct (get_sid r) as [[[|c sid]|]|e].
  - split; [discriminate|]. intros ((sid & [= <-] & H) & _). congruence.
  - destruct (post r) as [[]|e].
    + split; [intros H; repeat split; eauto; eexists; split; eauto; discriminate
             |intros (_ & _ & H); exact H].
    + split; [discriminate|]. intros (_ & H & _). discriminate.
  - split; [discriminate|]. intros ((sid & H & _) & _). discriminate.
  - split; [discriminate|]. intros ((sid & H & _) & _). discriminate.
Qed.

Section TransformFurther.

Variable lower : str -> str.
Variable json_repr : json -> string.

Lemma _detect_lang_pair_ok (text : str) :
  text <> [] -> exists pair, _detect_lang_pair lower text = Ok pair.
Proof.
  intros H. unfold _detect_lang_pair. destruct text; [congruence|].
  destruct (count_letters _ 0 0). eauto.
Qed.

(** X14: a translation is returned exactly when the text is not empty, a
    session key was obtained, the request went through and the answer is
    an object whose field "text" is a list, not empty, of strings; the
    translation is their concatenation.  A missing field, an empty list,
    another kind of value or an item that is no string all end in an
    error. *)
Theorem yandex_translate_succeeds_iff (text : str) (r : remote) (s : string) :
  _yandex_translate lower json_repr text r = Ok s
  <-> text <> []
      /\ (exists sid, get_sid r = Ok (Some sid) /\ sid <> EmptyString)
      /\ post r = Ok tt
      /\ exists fields strings,
           resp_json r = Ok (JDict fields)
           /\ assoc "text" fields = Some (JList (map JStr strings))
           /\ strings <> []
           /\ s = String.concat "" strings.
Proof.
  unfold _yandex_translate. split.
  - destruct (_detect_lang_pair lower text) as [pair|e] eqn:Ed; [|discriminate].
    intros H. apply wrap_request_error_ok in H.
    assert (Hne : text <> []).
    { intros ->. discriminate Ed. }
    destruct (_make_yandex_request r _TRANSLATE_API_URL) as [json_resp|e] eqn:Er;
      [|discriminate].
    apply _make_yandex_request_ok in Er; [|reflexivity].
    destruct Er as (Hsid & Hpost & Hjson).
    destruct (json_get json_resp "text") as [v|e] eqn:Eg; [|discriminate].
    destruct json_resp; try discriminate. cbn [json_get] in Eg.
    destruct (truthy v && is_list v) eqn:Et; [|discriminate].
    destruct v as [| | | |items|]; try discriminate.
    apply join_strings_ok in H. destruct H as (strings & -> & ->).
    destruct (assoc "text" fields) as [v|] eqn:Ea; [|discriminate].
    injection Eg as ->.
    repeat split; try assumption. exists fields, strings.
    repeat split; try assumption. intros ->. discriminate Et.
  - intros (Hne & Hsid & Hpost & fields & strings & Hjson & Ha & Hs & ->).
    destruct (_detect_lang_pair_ok text Hne) as [pair ->].
    apply wrap_request_error_ok.
    rewrite (proj2 (_make_yandex_request_ok r _TRANSLATE_API_URL
                      (JDict fields) eq_refl)) by auto.
    cbn [json_get]. rewrite Ha.
    destruct strings as [|s0 strings]; [congruence|].
    cbn [map truthy is_list andb].
    apply join_strings_ok. exists (s0 :: strings). split; reflexivity.
Qed.

(** X15: the editor returns a value exactly when the text is not empty, a
    session key was obtained, the request went through and the answer is
    an object whose field "result_text" is truthy; it returns that value
    as it is. *)
Theorem yandex_editor_api_succeeds_iff (text : str) (r : remote) (v : json) :
  _yandex_editor_api lower json_repr text r = Ok v
  <-> text <> []
      /\ (exists sid, get_sid r = Ok (Some sid) /\ sid <> EmptyString)
      /\ post r = Ok tt
      /\ exists fields,
           resp_json r = Ok (JDict fields)
           /\ assoc "result_text" fields = Some v
           /\ truthy v = true.
Proof.
  unfold _yandex_editor_api. split.
  - destruct (_detect_lang_pair lower text) as [pair|e] eqn:Ed; [|discriminate].
    intros H. apply wrap_request_error_ok in H.
    assert (Hne : text <> []).
    { intros ->. discriminate Ed. }
    destruct (_make_yandex_request r _EDIT_API_URL) as [json_resp|e] eqn:Er;
      [|discriminate].
    apply _make_yandex_request_ok in Er; [|reflexivity].
    destruct Er as (Hsid & Hpost & Hjson).
    destruct (json_get json_resp "result_text") as [v0|e] eqn:Eg; [|discriminate].
    destruct json_resp; try discriminate. cbn [json_get] in Eg.
    destruct (truthy v0) eqn:Et; [|discriminate]. injection H as ->.
    destruct (assoc "result_text" fields) as [v1|] eqn:Ea.
    + injection Eg as ->. repeat split; try assumption. exists fields.
      repeat split; assumption.
    + injection Eg as <-. discriminate Et.
  - intros (Hne & Hsid & Hpost & fields & Hjson & Ha & Ht).
    destruct (_detect_lang_pair_ok text Hne) as [pair ->].
    apply wrap_request_error_ok.
    rewrite (proj2 (_make_yandex_request_ok r _EDIT_API_URL
                      (JDict fields) eq_refl)) by auto.
    cbn [json_get]. rewrite Ha, Ht. reflexivity.
Qed.

End TransformFurther.

(** ** The search of a closing tag, further *)

Lemma startswith_nil_false (tag : str) : tag <> [] -> Py.startswith [] tag = false.
Proof. destruct tag; [congruence|reflexivity]. Qed.

(** [find_from] stops at the first occurrence. *)
Lemma find_from_first (sub : str) :
  forall t pos,
    0 <= pos ->
    let r := Py.find_from t sub pos in
    (r = -1 -> forall k, (k <= List.length t)%nat ->
                         Py.startswith (skipn k t) sub = false)
    /\ (r <> -1 -> forall k, pos + Z.of_nat k < r ->
                             Py.startswith (skipn k t) sub = false).
Proof.
  induction t as [|d t IH]; intros pos Hpos; cbn [Py.find_from].
  - destruct (Py.startswith [] sub) eqn:E; cbv zeta; split; intros H k Hk;
      try lia. destruct k; [exact E|simpl in Hk; lia].
  - destruct (Py.startswith (d :: t) sub) eqn:E; cbv zeta.
    + split; intros H k Hk; lia.
    + destruct (IH (pos + 1) ltac:(lia)) as [H1 H2]. split; intros H k Hk.
      * destruct k; [exact E|]. cbn [skipn]. apply H1; [assumption|].
        simpl in Hk. lia.
      * destruct k; [exact E|]. cbn [skipn]. apply H2; [assumption|lia].
Qed.

Lemma find_first (text sub : str) (s : Z) :
  0 <= s -> sub <> [] ->
  let r := Py.find text sub s in
  (r = -1 -> forall j, s <= j -> ~ occurs_at text sub j)
  /\ (r <> -1 -> forall j, s <= j < r -> ~ occurs_at text sub j).
Proof.
  intros Hs Hsub. unfold Py.find.
  destruct (s <? 0) eqn:E; [lia|].
  destruct (len text <? s) eqn:E1; cbv zeta.
  - split; [|congruence]. intros _ j Hj [_ Ho].
    rewrite skipn_all2 in Ho by (unfold Py.len in *; lia).
    rewrite startswith_nil_false in Ho by assumption. discriminate.
  - destruct (find_from_first sub (skipn (Z.to_nat s) text) s Hs) as [H1 H2].
    split; intros H j Hj [_ Ho].
    + destruct (Z_le_gt_dec j (len text)) as [Hle|Hgt].
      * specialize (H1 H (Z.to_nat (j - s))).
        rewrite length_skipn, skipn_skipn in H1.
        replace (Z.to_nat (j - s) + Z.to_nat s)%nat with (Z.to_nat j) in H1
          by lia.
        rewrite H1 in Ho by (unfold Py.len in *; lia). discriminate.
      * rewrite skipn_all2 in Ho by (unfold Py.len in *; lia).
        rewrite startswith_nil_false in Ho by assumption. discriminate.
    + specialize (H2 H (Z.to_nat (j - s)) ltac:(lia)).
      rewrite skipn_skipn in H2.
      replace (Z.to_nat (j - s) + Z.to_nat s)%nat with (Z.to_nat j) in H2
        by lia.
      congruence.
Qed.

Lemma find_closing_loop_first (text tag : str) :
  tag <> [] ->
  forall fuel sp r,
    0 <= sp ->
    find_closing_loop fuel text sp tag = Some r ->
    (r = -1 ->
     forall j, sp <= j -> occurs_at text tag j -> _is_escaped text j = true)
    /\ (r <> -1 ->
        forall j, sp <= j < r - len tag -> occurs_at text tag j ->
                  _is_escaped text j = true).
Proof.
  intros Htag. induction fuel as [|fuel IH]; intros sp r Hsp H; [discriminate|].
  cbn [find_closing_loop] in H.
  destruct (find_first text tag sp Hsp Htag) as [F1 F2].
  destruct (Py.find text tag sp =? -1) eqn:E.
  - apply Z.eqb_eq in E. injection H as <-. split; [|congruence].
    intros _ j Hj Ho. exfalso. exact (F1 E j Hj Ho).
  - apply Z.eqb_neq in E. specialize (F2 E).
    destruct (find_spec text tag sp _ Hsp eq_refl E) as (Hle & _ & _).
    destruct (_is_escaped text (Py.find text tag sp)) eqn:Hesc; cbn [negb] in H.
    + destruct (IH (Py.find text tag sp + 1) r ltac:(lia) H) as [R1 R2].
      assert (Hcase : forall j, sp <= j -> occurs_at text tag j ->
                j < Py.find text tag sp + 1 -> _is_escaped text j = true).
      { intros j Hj Ho Hlt.
        destruct (Z.eq_dec j (Py.find text tag sp)) as [->|Hne];
          [assumption|]. exfalso. apply (F2 j); [lia|assumption]. }
      split; intros Hr j Hj Ho.
      * destruct (Z_lt_ge_dec j (Py.find text tag sp + 1));
          [apply Hcase; assumption|apply R1; try assumption; lia].
      * destruct (Z_lt_ge_dec j (Py.find text tag sp + 1));
          [apply Hcase; try assumption; lia|apply R2; try assumption; lia].
    + injection H as <-. split; intros Hr j Hj Ho.
      * exfalso. pose proof (len_nonneg tag). lia.
      * exfalso. apply (F2 j); [lia|assumption].
Qed.

(** X1: the search gives the end of the first unescaped occurrence of the
    tag at or after the start position, and [-1] exactly when every
    occurrence from there on is escaped. *)
Theorem find_closing_tag_first_unescaped (text tag : str) (start_pos : Z) :
  0 <= start_pos -> tag <> [] ->
  let r := _find_closing_tag text start_pos tag in
  (r = -1 <->
   forall j, start_pos <= j -> occurs_at text tag j -> _is_escaped text j = true)
  /\ (r <> -1 ->
      start_pos <= r - len tag /\ r <= len text
      /\ occurs_at text tag (r - len tag)
      /\ _is_escaped text (r - len tag) = false
      /\ forall j, start_pos <= j < r - len tag -> occurs_at text tag j ->
                   _is_escaped text j = true).
Proof.
  intros Hsp Htag r.
  pose proof (_find_closing_tag_total text tag start_pos Hsp Htag) as Htot.
  fold r in Htot.
  destruct (find_closing_loop_first text tag Htag _ _ _ Hsp Htot) as [R1 R2].
  assert (Hfound : r <> -1 ->
            start_pos <= r - len tag /\ r <= len text
            /\ occurs_at text tag (r - len tag)
            /\ _is_escaped text (r - len tag) = false).
  { intros Hr.
    destruct (_find_closing_tag_spec text tag start_pos Hsp Htag Hr)
      as (idx & Hidx & Hle & Hmax & Hsw & Hesc).
    fold r in Hidx. replace (r - len tag) with idx by lia.
    repeat split; try assumption; lia. }
  split; [split|].
  - exact R1.
  - intros Hall. destruct (Z.eq_dec r (-1)) as [|Hr]; [assumption|].
    destruct (Hfound Hr) as (H1 & _ & H3 & H4).
    rewrite (Hall _ H1 H3) in H4. discriminate.
  - intros Hr. destruct (Hfound Hr) as (H1 & H2 & H3 & H4).
    repeat split; try assumption; try apply H3. apply R2. assumption.
Qed.

(** In [a\*b*] the first star is escaped, and the search from 0 ends
    after the second. *)
Lemma find_closing_tag_first_unescaped_witness :
  let text := Py.of_string "a\*b*" in
  let r := _find_closing_tag text 0 [star] in
  (r = -1 <->
   forall j, 0 <= j -> occurs_at text [star] j -> _is_escaped text j = true)
  /\ (r <> -1 ->
      0 <= r - len [star] /\ r <= len text
      /\ occurs_at text [star] (r - len [star])
      /\ _is_escaped text (r - len [star]) = false
      /\ forall j, 0 <= j < r - len [star] -> occurs_at text [star] j ->
                   _is_escaped text j = true).
Proof.
  apply (find_closing_tag_first_unescaped (Py.of_string "a\*b*") [star] 0).
  - lia.
  - discriminate.
Defined.

(** ** The zone scanner, further *)

Lemma is_char_in (text : str) (i : Z) (c : Py.char) :
  Py.is_char text i c = true -> In c text.
Proof.
  unfold Py.is_char, Py.index.
  destruct (_ || _); [discriminate|].
  destruct (nth_error text _) as [d|] eqn:E; [|discriminate].
  intros H. apply N.eqb_eq in H. subst d. eapply nth_error_In. eassumption.
Qed.

Lemma in_skipn {X : Type} (x : X) (k : nat) (l : list X) :
  In x (skipn k l) -> In x l.
Proof.
  revert l. induction k as [|k IH]; intros l H; [assumption|].
  destruct l; [assumption|]. right. apply IH. assumption.
Qed.

Lemma scan_step_plain (text : str) (i : Z) :
  Forall (fun c => opens_markup c = false) text ->
  exists i', scan_step text i = (None, i').
Proof.
  intros Hall. rewrite Forall_forall in Hall.
  assert (Hno : forall c, opens_markup c = true -> Py.is_char text i c = false
                          /\ Py.is_char text (i + 1) c = false).
  { intros c Hc. split.
    - destruct (Py.is_char text i c) eqn:E; [|reflexivity].
      apply is_char_in, Hall in E. congruence.
    - destruct (Py.is_char text (i + 1) c) eqn:E; [|reflexivity].
      apply is_char_in, Hall in E. congruence. }
  unfold scan_step. destruct (Py.is_char text i backslash); [eauto|].
  assert (Hf : try_fence text i = None).
  { unfold try_fence. destruct (Py.startswith _ fence) eqn:E; [|reflexivity].
    exfalso. unfold Py.slice_from in E.
    destruct (skipn _ text) as [|d t] eqn:Es; [discriminate|].
    cbn [Py.startswith fence] in E. apply andb_prop in E. destruct E as [E _].
    apply N.eqb_eq in E. subst d.
    assert (Hin : In backtick text).
    { eapply in_skipn. rewrite Es. left. reflexivity. }
    apply Hall in Hin. discriminate. }
  rewrite Hf. unfold try_inline, try_link, try_marker, marker_at.
  rewrite (proj1 (Hno backtick eq_refl)), (proj1 (Hno lbracket eq_refl)),
    (proj1 (Hno star eq_refl)), (proj1 (Hno underscore eq_refl)),
    (proj1 (Hno tilde eq_refl)), (proj1 (Hno pipe eq_refl)).
  cbn [andb]. eauto.
Qed.

Lemma find_zones_loop_plain (text : str) :
  Forall (fun c => opens_markup c = false) text ->
  forall fuel i zs, find_zones_loop fuel text i [] = Some zs -> zs = [].
Proof.
  intros Hall. induction fuel as [|fuel IH]; intros i zs H;
    cbn [find_zones_loop] in H; destruct (i <? len text);
    try discriminate; try (injection H as <-; reflexivity).
  destruct (scan_step_plain text i Hall) as [i' Hs]. rewrite Hs in H.
  eapply IH. eassumption.
Qed.

(** X2: a text with no backtick, opening bracket, star, underscore, tilde or
    vertical bar has no protected zone, whatever its backslashes. *)
Theorem plain_text_has_no_zone (text : str) :
  Forall (fun c => opens_markup c = false) text -> _find_zones text = [].
Proof.
  intros Hall. eapply find_zones_loop_plain; [eassumption|].
  apply _find_zones_total.
Qed.

Lemma plain_text_has_no_zone_witness :
  _find_zones (Py.of_string "1 + 2 \ 3 (see) ]") = [].
Proof.
  apply (plain_text_has_no_zone (Py.of_string "1 + 2 \ 3 (see) ]")).
  repeat constructor.
Defined.

Lemma find_zones_loop_forall (text : str) (P : _ProtectedZone -> Prop) :
  (forall i z i', 0 <= i -> _is_escaped text i = false ->
                  scan_step text i = (Some z, i') -> P z) ->
  forall fuel i acc zs,
    0 <= i -> _is_escaped text i = false ->
    find_zones_loop fuel text i acc = Some zs ->
    Forall P acc -> Forall P zs.
Proof.
  intros Hstep. induction fuel as [|fuel IH]; intros i acc zs Hi Hesc H Hacc;
    cbn [find_zones_loop] in H; destruct (i <? len text);
    try discriminate; try (injection H as <-; assumption).
  destruct (scan_step text i) as [oz i'] eqn:Es.
  destruct (scan_step_spec text i i' oz Hi Hesc Es) as (Hlt & Hesc' & _).
  destruct oz as [z|]; (eapply IH; [| |eassumption|]); try lia; try assumption.
  apply Forall_app. split; [assumption|]. constructor; [|constructor].
  eapply Hstep; eassumption.
Qed.

Lemma _find_zones_forall (text : str) (P : _ProtectedZone -> Prop) :
  (forall i z i', 0 <= i -> _is_escaped text i = false ->
                  scan_step text i = (Some z, i') -> P z) ->
  Forall P (_find_zones text).
Proof.
  intros Hstep.
  eapply (find_zones_loop_forall text P Hstep (List.length text) 0 []);
    [lia|reflexivity|apply _find_zones_total|constructor].
Qed.

Lemma scan_step_some (text : str) (i i' : Z) (z : _ProtectedZone) :
  scan_step text i = (Some z, i') ->
  try_fence text i = Some z
  \/ try_inline text i = Some z
  \/ try_link text i = Some z
  \/ try_marker text i = Some z.
Proof.
  unfold scan_step. destruct (Py.is_char text i backslash); [discriminate|].
  destruct (try_fence text i); [intros [= -> _]; auto|].
  destruct (try_inline text i); [intros [= -> _]; auto|].
  destruct (try_link text i); [intros [= -> _]; auto|].
  destruct (try_marker text i); [intros [= -> _]; auto|discriminate].
Qed.

Lemma occurs_at_char (text : str) (i : Z) (c : Py.char) :
  0 <= i -> Py.is_char text i c = true -> occurs_at text [c] i.
Proof.
  intros Hi H. split; [assumption|].
  apply is_char_nth in H; [|assumption].
  destruct (skipn (Z.to_nat i) text) as [|d t] eqn:Es.
  - pose proof (nth_error_skipn (Z.to_nat i) text 0) as Hn.
    rewrite Es, Nat.add_0_r, H in Hn. discriminate.
  - pose proof (nth_error_skipn (Z.to_nat i) text 0) as Hn.
    rewrite Es, Nat.add_0_r, H in Hn. injection Hn as ->.
    cbn [Py.startswith]. rewrite N.eqb_refl. destruct t; reflexivity.
Qed.

Lemma occurs_at_two (text : str) (i : Z) (c d : Py.char) :
  0 <= i -> Py.is_char text i c = true -> Py.is_char text (i + 1) d = true ->
  occurs_at text [c; d] i.
Proof.
  intros Hi Hc Hd. split; [assumption|].
  apply is_char_nth in Hc; [|assumption]. apply is_char_nth in Hd; [|lia].
  replace (Z.to_nat (i + 1)) with (Z.to_nat i + 1)%nat in Hd by lia.
  rewrite <- (Nat.add_0_r (Z.to_nat i)) in Hc.
  rewrite <- nth_error_skipn in Hc, Hd.
  destruct (skipn (Z.to_nat i) text) as [|x [|y t]]; try discriminate.
  injection Hc as ->. injection Hd as ->.
  cbn [Py.startswith]. rewrite !N.eqb_refl. destruct t; reflexivity.
Qed.

Lemma closing_occurs (text tag : str) (sp : Z) :
  0 <= sp -> tag <> [] -> _find_closing_tag text sp tag <> -1 ->
  occurs_at text tag (_find_closing_tag text sp tag - len tag)
  /\ sp + len tag <= _find_closing_tag text sp tag.
Proof.
  intros Hsp Htag Hr.
  destruct (_find_closing_tag_spec text tag sp Hsp Htag Hr)
    as (idx & Hidx & Hle & _ & Hsw & _).
  rewrite Hidx. replace (idx + len tag - len tag) with idx by lia.
  split; [split; [lia|assumption]|lia].
Qed.

Lemma try_inline_shape (text : str) (i : Z) (z : _ProtectedZone) :
  0 <= i -> try_inline text i = Some z ->
  inline_code z /\ occurs_at text (open_tag z) (start z)
  /\ occurs_at text (close_tag z) (end_ z - len (close_tag z)).
Proof.
  intros Hi. unfold try_inline.
  destruct (Py.is_char text i backtick) eqn:Ec; [|discriminate].
  destruct (_ =? -1) eqn:E; [discriminate|]. apply Z.eqb_neq in E.
  intros [= <-]. cbn [start end_ open_tag close_tag].
  destruct (closing_occurs text [backtick] (i + 1) ltac:(lia)
              ltac:(discriminate) E) as [Ho Hle].
  change (len [backtick]) with 1 in *.
  split; [|split].
  - unfold inline_code. cbn. repeat split; try reflexivity. lia.
  - apply occurs_at_char; assumption.
  - assumption.
Qed.

Lemma try_link_shape (text : str) (i : Z) (z : _ProtectedZone) :
  0 <= i -> try_link text i = Some z ->
  link text z /\ occurs_at text (open_tag z) (start z)
  /\ occurs_at text (close_tag z) (end_ z - len (close_tag z)).
Proof.
  intros Hi. unfold try_link.
  destruct (Py.is_char text i lbracket) eqn:Ec; [|discriminate].
  destruct (negb (_ =? -1)) eqn:E; [|discriminate]. cbn [andb].
  apply negb_true_iff, Z.eqb_neq in E.
  destruct (_ <? len text); [|discriminate]. cbn [andb].
  destruct (Py.is_char text _ lparen); [|discriminate].
  destruct (_find_closing_tag text (_ + 1) [rparen] =? -1) eqn:E2; [discriminate|].
  apply Z.eqb_neq in E2.
  intros [= <-]. cbn [start end_ open_tag close_tag].
  destruct (closing_occurs text [rbracket] (i + 1) ltac:(lia)
              ltac:(discriminate) E) as [_ Hle1].
  change (len [rbracket]) with 1 in Hle1.
  destruct (closing_occurs text [rparen]
              (_find_closing_tag text (i + 1) [rbracket] + 1) ltac:(lia)
              ltac:(discriminate) E2) as [Ho Hle2].
  change (len [rbracket]) with 1 in *. change (len [rparen]) with 1 in *.
  change (len []) with 0. rewrite Z.sub_0_r.
  split; [|split].
  - unfold link. cbn [start end_ open_tag close_tag require_newline atomic].
    repeat split; try reflexivity; try assumption; try apply Ho; lia.
  - split; [lia|]. destruct (skipn _ text); reflexivity.
  - split; [lia|]. destruct (skipn _ text); reflexivity.
Qed.

Lemma marker_at_cases (text : str) (i : Z) :
  0 <= i ->
  marker_at text i = []
  \/ (In (marker_at text i)
         [[star]; [underscore]; [underscore; underscore]; [tilde]; [pipe; pipe]]
      /\ occurs_at text (marker_at text i) i).
Proof.
  intros Hi. unfold marker_at.
  destruct (Py.is_char text i star) eqn:E1.
  { right. split; [simpl; auto|apply occurs_at_char; assumption]. }
  destruct (Py.is_char text i underscore) eqn:E2.
  { destruct ((i + 1 <? len text) && Py.is_char text (i + 1) underscore) eqn:E.
    - apply andb_prop in E. destruct E as [_ E].
      right. split; [simpl; auto|apply occurs_at_two; assumption].
    - right. split; [simpl; auto|apply occurs_at_char; assumption]. }
  destruct (Py.is_char text i tilde) eqn:E3.
  { right. split; [simpl; auto|apply occurs_at_char; assumption]. }
  destruct (Py.is_char text i pipe && (i + 1 <? len text)
            && Py.is_char text (i + 1) pipe) eqn:E4; [|left; reflexivity].
  apply andb_prop in E4. destruct E4 as [E4 E5].
  apply andb_prop in E4. destruct E4 as [E4 _].
  right. split; [simpl; auto 6|apply occurs_at_two; assumption].
Qed.

Lemma try_marker_shape (text : str) (i : Z) (z : _ProtectedZone) :
  0 <= i -> try_marker text i = Some z ->
  formatting_marker z /\ occurs_at text (open_tag z) (start z)
  /\ occurs_at text (close_tag z) (end_ z - len (close_tag z)).
Proof.
  intros Hi. unfold try_marker.
  destruct (marker_at_cases text i Hi) as [H|[Hin Ho]]; [rewrite H; discriminate|].
  destruct (marker_at text i) as [|c tag] eqn:Em; [discriminate|].
  destruct (_ =? -1) eqn:E; [discriminate|]. apply Z.eqb_neq in E.
  intros [= <-]. cbn [start end_ open_tag close_tag].
  destruct (closing_occurs text (c :: tag) (i + len (c :: tag)) 
              ltac:(pose proof (len_nonneg (c :: tag)); lia)
              ltac:(discriminate) E) as [Hc Hle].
  split; [|split; assumption].
  unfold formatting_marker. cbn [start end_ open_tag close_tag require_newline atomic].
  repeat split; try reflexivity; try assumption. lia.
Qed.

Lemma slice_in_range (text : str) (a b : Z) :
  0 <= a -> a <= b -> b <= len text ->
  Py.slice text a b = firstn (Z.to_nat (b - a)) (skipn (Z.to_nat a) text).
Proof.
  intros Ha Hab Hb. unfold Py.slice, Py.clamp.
  destruct (a <? 0) eqn:E1; [lia|]. destruct (b <? 0) eqn:E2; [lia|].
  now rewrite !Z.min_l by lia.
Qed.

Lemma startswith_firstn (p t : str) (n : nat) :
  Py.startswith t p = true -> (List.length p <= n)%nat ->
  Py.startswith (firstn n t) p = true.
Proof.
  revert t n. induction p as [|c p IH]; intros t n H Hn.
  - destruct (firstn n t); reflexivity.
  - destruct t as [|d t]; [discriminate|]. destruct n; [simpl in Hn; lia|].
    cbn [firstn Py.startswith] in *. apply andb_prop in H. destruct H as [-> H].
    cbn [andb]. apply IH; [assumption|simpl in Hn; lia].
Qed.

Lemma startswith_own_prefix (t : str) (n : nat) :
  Py.startswith t (firstn n t) = true.
Proof.
  revert n. induction t as [|d t IH]; intros n.
  - rewrite firstn_nil. reflexivity.
  - destruct n; [reflexivity|]. cbn [firstn Py.startswith].
    rewrite N.eqb_refl. apply IH.
Qed.

Lemma occurs_at_nth (t : str) (j : nat) (c : Py.char) :
  nth_error t j = Some c -> occurs_at t [c] (Z.of_nat j).
Proof.
  intros H. split; [lia|]. rewrite Nat2Z.id.
  rewrite <- (Nat.add_0_r j), <- nth_error_skipn in H.
  destruct (skipn j t) as [|d r]; [discriminate|]. injection H as ->.
  cbn [Py.startswith]. rewrite N.eqb_refl. destruct r; reflexivity.
Qed.

Lemma fence_open_tag_shape (text : str) (i e : Z) :
  0 <= i -> i + 6 <= e -> e <= len text ->
  Py.startswith (skipn (Z.to_nat i) text) fence = true ->
  let tag := fence_open_tag text i e in
  Py.startswith tag fence = true /\ ~ In newline tag /\ occurs_at text tag i.
Proof.
  intros Hi Hie He Hsw. unfold fence_open_tag.
  set (T := skipn (Z.to_nat i) text) in *.
  assert (HT : (Z.to_nat (e - i) <= List.length T)%nat).
  { unfold T. rewrite length_skipn. unfold Py.len in *. lia. }
  rewrite (slice_in_range text i e) by lia. fold T.
  set (S := firstn (Z.to_nat (e - i)) T).
  destruct (Py.find S [newline] 0 =? -1) eqn:E; cbv zeta.
  { split; [reflexivity|]. split; [|split; [assumption|exact Hsw]].
    intros [H|[H|[H|[]]]]; discriminate. }
  apply Z.eqb_neq in E.
  destruct (find_spec S [newline] 0 _ ltac:(lia) eq_refl E) as (H0 & Hmax & Hnl).
  destruct (find_first S [newline] 0 ltac:(lia) ltac:(discriminate)) as [_ Hmin].
  specialize (Hmin E).
  set (nl := Py.find S [newline] 0) in *.
  assert (HS : List.length S = Z.to_nat (e - i)).
  { unfold S. apply firstn_length_le. assumption. }
  assert (Hnth : forall j, (j < Z.to_nat nl)%nat -> nth_error T j <> Some newline).
  { intros j Hj Hc. apply (Hmin (Z.of_nat j)); [lia|].
    apply occurs_at_nth. unfold S. rewrite nth_error_firstn.
    destruct (j <? Z.to_nat (e - i))%nat eqn:Ej; [assumption|].
    apply Nat.ltb_ge in Ej. unfold Py.len in Hmax. lia. }
  assert (Hnl3 : 3 <= nl).
  { destruct (Z_lt_ge_dec nl 3) as [Hlt|]; [|lia]. exfalso.
    apply startswith_length in Hnl. rewrite length_skipn in Hnl.
    simpl in Hnl.
    pose proof (startswith_nth _ _ Hsw) as Hf.
    assert (Hb : forall j, (j < 3)%nat -> nth_error T j = Some backtick).
    { intros j Hj. rewrite Hf by (simpl; lia).
      destruct j as [|[|[|j]]]; try reflexivity. lia. }
    pose proof (startswith_nth [newline] _
                  (proj2 (proj2 (find_spec S [newline] 0 _ ltac:(lia) eq_refl E)))
                  0%nat ltac:(simpl; lia)) as Hn.
    fold nl in Hn. rewrite nth_error_skipn, Nat.add_0_r in Hn.
    unfold S in Hn. rewrite nth_error_firstn in Hn.
    destruct (Z.to_nat nl <? Z.to_nat (e - i))%nat; [|discriminate].
    rewrite Hb in Hn by lia. discriminate. }
  assert (Hopen : Py.slice text i (i + nl)
                  = firstn (Z.to_nat nl) T).
  { rewrite slice_in_range by (unfold Py.len in *; lia). fold T.
    f_equal. lia. }
  rewrite Hopen. split; [|split].
  - apply startswith_firstn; [assumption|simpl; lia].
  - intros Hin. apply In_nth_error in Hin. destruct Hin as [j Hj].
    assert (Hlt : (j < Z.to_nat nl)%nat).
    { assert (Hx : nth_error (firstn (Z.to_nat nl) T) j <> None) by congruence.
      apply nth_error_Some in Hx. rewrite length_firstn in Hx. lia. }
    rewrite nth_error_firstn in Hj.
    destruct (j <? Z.to_nat nl)%nat; [|discriminate].
    exact (Hnth j Hlt Hj).
  - split; [assumption|]. apply startswith_own_prefix.
Qed.

Lemma try_fence_shape (text : str) (i : Z) (z : _ProtectedZone) :
  0 <= i -> try_fence text i = Some z ->
  fenced_block z /\ occurs_at text (open_tag z) (start z)
  /\ occurs_at text (close_tag z) (end_ z - len (close_tag z)).
Proof.
  intros Hi. unfold try_fence.
  destruct (Py.startswith _ fence) eqn:Esw; [|discriminate].
  destruct (_ =? -1) eqn:E; [discriminate|]. apply Z.eqb_neq in E.
  intros [= <-]. cbn [start end_ open_tag close_tag].
  destruct (closing_occurs text fence (i + 3) ltac:(lia)
              ltac:(discriminate) E) as [Ho Hle].
  change (len fence) with 3 in *.
  destruct (_find_closing_tag_spec text fence (i + 3) ltac:(lia)
              ltac:(discriminate) E) as (idx & Hidx & _ & Hmax & _).
  change (len fence) with 3 in *.
  assert (Hsw : Py.startswith (skipn (Z.to_nat i) text) fence = true).
  { rewrite slice_from_nonneg in Esw by lia. exact Esw. }
  destruct (fence_open_tag_shape text i (_find_closing_tag text (i + 3) fence)
              Hi ltac:(lia) ltac:(lia) Hsw) as (H1 & H2 & H3).
  split; [|split; assumption].
  unfold fenced_block.
  cbn [start end_ open_tag close_tag require_newline atomic].
  repeat split; try reflexivity; try assumption. lia.
Qed.

(** X3: every zone of the scan is a fenced block, an inline code, a link or a
    formatting marker, with the flags and tags of its kind; its opening
    tag is the text at its start (for a fence, the first line, a fence
    itself when the block has one line), and its closing tag the text at
    its end. *)
Theorem zones_have_a_shape (text : str) (z : _ProtectedZone) :
  In z (_find_zones text) ->
  zone_shape text z
  /\ occurs_at text (open_tag z) (start z)
  /\ occurs_at text (close_tag z) (end_ z - len (close_tag z)).
Proof.
  revert z. apply Forall_forall. apply _find_zones_forall.
  intros i z i' Hi _ Hs. apply scan_step_some in Hs. unfold zone_shape.
  destruct Hs as [H|[H|[H|H]]].
  - apply try_fence_shape in H; tauto.
  - apply try_inline_shape in H; tauto.
  - apply try_link_shape in H; tauto.
  - apply try_marker_shape in H; tauto.
Qed.

(** ** The chunk splitter, further *)

Lemma index_some (text : str) (i : Z) :
  0 <= i < len text -> exists c, Py.index text i = Some c
                                 /\ nth_error text (Z.to_nat i) = Some c.
Proof.
  intros H. rewrite index_in_range by assumption.
  destruct (nth_error text (Z.to_nat i)) as [c|] eqn:E; [eauto|].
  apply nth_error_None in E. unfold Py.len in H. lia.
Qed.

(** The walk back is of one position at most, raises nothing between
    the current position and the end of the text, and stops at a position
    that no backslash escapes. *)
Lemma walk_back_one (text : str) (k : nat) (current_pos split_pos : Z) :
  0 <= current_pos -> split_pos <= len text ->
  exists r, walk_back k text current_pos split_pos = Ok r
            /\ split_pos - 1 <= r <= split_pos
            /\ (current_pos <= split_pos -> current_pos <= r)
            /\ ((0 < k)%nat -> current_pos < r -> _is_escaped text r = false).
Proof.
  intros Hcp Hsp. destruct k as [|k]; cbn [walk_back].
  { exists split_pos. repeat split; lia. }
  destruct (split_pos >? current_pos) eqn:E;
    [|exists split_pos; repeat split; lia].
  destruct (index_some text (split_pos - 1) ltac:(lia)) as (c & -> & Hc).
  destruct (N.eqb c backslash && negb (_is_escaped text (split_pos - 1))) eqn:Eb.
  2:{ exists split_pos. repeat split; try lia. intros _ _.
      replace split_pos with (split_pos - 1 + 1) at 1 by lia.
      destruct (N.eqb c backslash) eqn:Ec.
      - apply N.eqb_eq in Ec. subst c. cbn [andb] in Eb.
        rewrite escaped_after_backslash by (assumption || lia).
        exact Eb.
      - apply escaped_after_other; [lia|]. rewrite Hc. intros [= ->].
        rewrite N.eqb_refl in Ec. discriminate. }
  apply andb_prop in Eb. destruct Eb as [Ebs Eesc].
  apply N.eqb_eq in Ebs. subst c. apply negb_true_iff in Eesc.
  destruct k as [|k]; cbn [walk_back].
  { exists (split_pos - 1). repeat split; try lia. intros _ _. exact Eesc. }
  destruct (split_pos - 1 >? current_pos) eqn:E2;
    [|exists (split_pos - 1); repeat split; try lia; intros _ _; exact Eesc].
  destruct (index_some text (split_pos - 1 - 1) ltac:(lia)) as (c & -> & Hc2).
  destruct (N.eqb c backslash) eqn:Ec; cbn [andb];
    [|exists (split_pos - 1); repeat split; try lia; intros _ _; exact Eesc].
  apply N.eqb_eq in Ec. subst c.
  pose proof (escaped_after_backslash text (split_pos - 1 - 1) ltac:(lia) Hc2)
    as Hp.
  replace (split_pos - 1 - 1 + 1) with (split_pos - 1) in Hp by lia.
  rewrite Eesc in Hp. symmetry in Hp. apply negb_false_iff in Hp.
  rewrite Hp. cbn [negb]. exists (split_pos - 1).
  repeat split; try lia. intros _ _. exact Eesc.
Qed.

Lemma lookback_in_range (text : str) :
  forall k i best found,
    0 <= i - Z.of_nat k -> i <= len text ->
    exists best' found',
      lookback k text i best found = Ok (best', found')
      /\ (found' = true ->
          (found = true /\ best' = best)
          \/ (i - Z.of_nat k < best' <= i /\ _is_escaped text best' = false))
      /\ (found' = false -> found = false).
Proof.
  induction k as [|k IH]; intros i best found Hk Hi; cbn [lookback].
  { exists best, found. split; [reflexivity|]. split; intros H; auto. }
  destruct (index_some text (i - 1) ltac:(lia)) as (c & -> & Hc).
  destruct (IH (i - 1) best found ltac:(lia) ltac:(lia))
    as (b1 & f1 & H1 & H1t & H1f).
  destruct (IH (i - 1) i true ltac:(lia) ltac:(lia))
    as (b2 & f2 & H2 & H2t & H2f).
  assert (Hplain : c <> backslash -> _is_escaped text i = false).
  { intros Hne. replace i with (i - 1 + 1) by lia.
    apply escaped_after_other; [lia|]. rewrite Hc. congruence. }
  destruct (N.eqb c backslash && negb (_is_escaped text (i - 1))).
  { exists b1, f1. split; [assumption|]. split; [|assumption].
    intros Hf. destruct (H1t Hf) as [?|[? ?]];
      [left; assumption|right; split; [lia|assumption]]. }
  destruct (N.eqb c newline) eqn:En.
  { exists i, true. split; [reflexivity|]. split; [|discriminate].
    intros _. right. split; [lia|]. apply Hplain.
    apply N.eqb_eq in En. subst c. discriminate. }
  destruct (N.eqb c space && negb found) eqn:Es.
  - apply andb_prop in Es. destruct Es as [Es _]. apply N.eqb_eq in Es.
    exists b2, f2. split; [assumption|]. split.
    + intros Hf. right. destruct (H2t Hf) as [[_ ->]|[? ?]].
      * split; [lia|]. apply Hplain. subst c. discriminate.
      * split; [lia|assumption].
    + intros Hf. specialize (H2f Hf). discriminate.
  - exists b1, f1. split; [assumption|]. split; [|assumption].
    intros Hf. destruct (H1t Hf) as [?|[? ?]];
      [left; assumption|right; split; [lia|assumption]].
Qed.

Lemma active_zone_at_in (zones : list _ProtectedZone) (split_pos : Z)
    (z : _ProtectedZone) :
  active_zone_at zones split_pos = Some z ->
  In z zones /\ start z < split_pos < end_ z.
Proof.
  unfold active_zone_at. intros H. apply find_some in H.
  destruct H as [Hin H]. apply andb_prop in H. destruct H as [H1 H2].
  split; [assumption|lia].
Qed.

(** One iteration on a text whose zones are all atomic. *)
Lemma split_step_atomic (text : str) (zones : list _ProtectedZone)
    (max_length current_pos : Z) :
  Forall (fun z => atomic z = true) zones ->
  2 <= max_length -> 0 <= current_pos < len text ->
  (len text - current_pos <= max_length
   /\ split_step text zones max_length current_pos []
      = Ok (Final (mkPiece [] current_pos (len text)
                           (skipn (Z.to_nat current_pos) text) [])))
  \/ (max_length < len text - current_pos
      /\ exists current_pos',
           split_step text zones max_length current_pos []
           = Ok (Next (mkPiece [] current_pos current_pos'
                        (firstn (Z.to_nat (current_pos' - current_pos))
                                (skipn (Z.to_nat current_pos) text)) [])
                      current_pos' [])
           /\ current_pos < current_pos' <= current_pos + max_length
           /\ current_pos' < len text
           /\ (Forall (fun z => _is_escaped text (start z) = false) zones ->
               _is_escaped text current_pos' = false)).
Proof.
  intros Hat Hm Hcp. rewrite Forall_forall in Hat. unfold split_step.
  assert (He : effective_max_of max_length [] = max_length).
  { unfold effective_max_of. change (len []) with 0.
    destruct (max_length - 0 <=? 0) eqn:E; lia. }
  rewrite He.
  destruct (len text - current_pos <=? max_length) eqn:Efit.
  { left. split; [lia|]. rewrite slice_from_nonneg by lia. reflexivity. }
  right. split; [lia|].
  destruct (walk_back_one text
              (Z.to_nat (current_pos + max_length - current_pos))
              current_pos (current_pos + max_length) ltac:(lia) ltac:(lia))
    as (r & -> & Hr & _ & Hresc).
  specialize (Hresc ltac:(lia) ltac:(lia)).
  assert (Hadj : exists sp,
            adjust_to_zone (active_zone_at zones r) current_pos max_length r
            = (sp, [], []) /\ current_pos < sp <= r
            /\ (Forall (fun z => _is_escaped text (start z) = false) zones ->
                _is_escaped text sp = false)).
  { unfold adjust_to_zone.
    destruct (active_zone_at zones r) as [z|] eqn:Ez;
      [|exists r; split; [reflexivity|split; [lia|intros _; assumption]]].
    apply active_zone_at_in in Ez. destruct Ez as [Hin Hz].
    rewrite (Hat z Hin).
    destruct (start z >? current_pos) eqn:E.
    - exists (start z). split; [reflexivity|]. split; [lia|].
      intros Hun. rewrite Forall_forall in Hun. apply Hun. assumption.
    - exists r. split; [reflexivity|]. split; [lia|]. intros _. assumption. }
  destruct Hadj as (sp & -> & Hsp & Hspesc).
  destruct (lookback_in_range text
              (Z.to_nat (sp - Z.max (sp - 150) current_pos)) sp sp false
              ltac:(lia) ltac:(lia))
    as (best & found & -> & Hfound & _).
  set (cp' := if found then best else sp).
  assert (Hcp' : current_pos < cp' <= sp
                 /\ (Forall (fun z => _is_escaped text (start z) = false) zones ->
                     _is_escaped text cp' = false)).
  { unfold cp'. destruct found; [|split; [lia|assumption]].
    destruct (Hfound eq_refl) as [[H _]|[H He']]; [discriminate|].
    split; [lia|]. intros _. assumption. }
  exists cp'. split; [|split; [lia|split; [lia|apply Hcp']]].
  rewrite slice_in_range by lia. reflexivity.
Qed.

Lemma render_plain (a b : Z) (raw : str) :
  render (mkPiece [] a b raw []) = raw.
Proof. unfold render. cbn. apply app_nil_r. Qed.

Lemma split_loop_atomic (text : str) (zones : list _ProtectedZone)
    (max_length : Z) :
  Forall (fun z => atomic z = true) zones -> 2 <= max_length ->
  forall fuel current_pos chunks,
    0 <= current_pos <= len text ->
    len text - current_pos <= Z.of_nat fuel ->
    exists rest,
      split_loop fuel text zones max_length current_pos [] chunks
      = Some (Ok (chunks ++ rest))
      /\ List.concat (map render rest) = skipn (Z.to_nat current_pos) text
      /\ Forall (fun p => 1 <= len (render p) <= max_length) rest
      /\ Forall (fun p => p_prefix p = [] /\ p_suffix p = []
                          /\ current_pos <= p_from p < p_to p
                          /\ p_to p <= len text) rest
      /\ (Forall (fun z => _is_escaped text (start z) = false) zones ->
          Forall (fun p => p_to p < len text ->
                           _is_escaped text (p_to p) = false) rest).
Proof.
  intros Hat Hm. induction fuel as [|fuel IH]; intros cp chunks Hcp Hfuel;
    cbn [split_loop]; destruct (cp <? len text) eqn:E; try lia.
  1,3: exists []; rewrite app_nil_r; split; [reflexivity|];
       split; [symmetry; apply skipn_all2; unfold Py.len in *; lia|];
       split; [constructor|split; [constructor|intros _; constructor]].
  destruct (split_step_atomic text zones max_length cp Hat Hm ltac:(lia))
    as [[Hfit ->]|(Hnofit & cp' & -> & Hcp' & Hlt & Hesc)].
  - eexists [_]. split; [reflexivity|].
    cbn [map List.concat]. rewrite render_plain, app_nil_r.
    split; [reflexivity|].
    split.
    { constructor; [|constructor]. rewrite render_plain.
      unfold Py.len in *. rewrite length_skipn. lia. }
    split.
    { constructor; [|constructor]. cbn [p_prefix p_suffix p_from p_to].
      repeat split; lia. }
    intros _. constructor; [|constructor]. cbn [p_to]. lia.
  - destruct (IH cp' (chunks ++ [mkPiece [] cp cp'
                 (firstn (Z.to_nat (cp' - cp)) (skipn (Z.to_nat cp) text)) []])
                ltac:(lia) ltac:(lia))
      as (rest & -> & Hcat & Hlen & Hplain & Hrest).
    eexists (_ :: rest). rewrite <- app_assoc. split; [reflexivity|].
    cbn [map List.concat]. rewrite render_plain, Hcat.
    split.
    { replace (Z.to_nat cp') with (Z.to_nat (cp' - cp) + Z.to_nat cp)%nat by lia.
      rewrite <- skipn_skipn. apply firstn_skipn. }
    split.
    { constructor; [|assumption]. rewrite render_plain.
      unfold Py.len in *. rewrite length_firstn, length_skipn. lia. }
    split.
    { constructor.
      - cbn [p_prefix p_suffix p_from p_to]. repeat split; lia.
      - eapply Forall_impl; [|exact Hplain]. cbv beta.
        intros p (H1 & H2 & H3 & H4). repeat split; try assumption; lia. }
    intros Hun. constructor; [|apply Hrest; assumption].
    cbn [p_to]. intros _. apply Hesc. assumption.
Qed.

(** X5: a text whose zones are all atomic (inline code and links; a text
    with no zone is one) is split, for every maximum length other than 1,
    within [len(text)] iterations and without an error, into chunks that
    are not empty, are at most the maximum long (4096 for a maximum of 0
    or less) and whose concatenation is the text: no markup is added. *)
Theorem split_of_atomic_text (text : str) (max_length : Z) :
  max_length <> 1 ->
  Forall (fun z => atomic z = true) (_find_zones text) ->
  let m := if max_length <=? 0 then 4096 else max_length in
  exists chunks,
    _smart_split (List.length text) text max_length = Some (Ok chunks)
    /\ List.concat chunks = text
    /\ Forall (fun chunk => 1 <= len chunk <= m) chunks.
Proof.
  intros Hm Hat m. unfold _smart_split, split_pieces. fold m.
  assert (Hm2 : 2 <= m) by (unfold m; destruct (max_length <=? 0) eqn:E; lia).
  destruct (split_loop_atomic text (_find_zones text) m Hat Hm2
              (List.length text) 0 []
              ltac:(pose proof (len_nonneg text); lia)
              ltac:(unfold Py.len; lia))
    as (rest & -> & Hcat & Hlen & _).
  cbn [app]. exists (map render rest). split; [reflexivity|].
  split; [exact Hcat|]. apply Forall_map. exact Hlen.
Qed.

(** X6: in a text whose zones are all atomic and for a maximum length
    other than 1, no chunk ends between a backslash and the character it
    escapes: every chunk takes a part of the text that is not empty, and
    every boundary between two chunks is a position that no backslash
    escapes. *)
Theorem chunks_do_not_split_escapes (text : str) (max_length : Z) :
  max_length <> 1 ->
  Forall (fun z => atomic z = true) (_find_zones text) ->
  exists ps,
    split_pieces (List.length text) text max_length = Some (Ok ps)
    /\ Forall (fun p => 0 <= p_from p < p_to p /\ p_to p <= len text
                        /\ (p_to p < len text ->
                            _is_escaped text (p_to p) = false)) ps.
Proof.
  intros Hm Hat. unfold split_pieces.
  set (m := if max_length <=? 0 then 4096 else max_length).
  assert (Hm2 : 2 <= m) by (unfold m; destruct (max_length <=? 0) eqn:E; lia).
  destruct (split_loop_atomic text (_find_zones text) m Hat Hm2
              (List.length text) 0 []
              ltac:(pose proof (len_nonneg text); lia)
              ltac:(unfold Py.len; lia))
    as (rest & -> & _ & _ & Hplain & Hesc).
  cbn [app]. exists rest. split; [reflexivity|].
  specialize (Hesc (proj2 (proj2 (_find_zones_spec text)))).
  rewrite Forall_forall in *. intros p Hin.
  destruct (Hplain p Hin) as (_ & _ & H3 & H4).
  repeat split; try lia. apply Hesc. assumption.
Qed.

(** A text that fits is taken whole by the first iteration. *)
Lemma split_pieces_fits (text : str) (max_length : Z) (fuel : nat) :
  text <> [] ->
  len text <= (if max_length <=? 0 then 4096 else max_length) ->
  split_pieces (S fuel) text max_length
  = Some (Ok [mkPiece [] 0 (len text) text []]).
Proof.
  intros Hne Hfit. unfold split_pieces.
  set (m := if max_length <=? 0 then 4096 else max_length) in *.
  cbn [split_loop].
  assert (Hlen : (0 <? len text) = true).
  { apply Z.ltb_lt. destruct text; [congruence|].
    unfold Py.len. cbn [List.length]. lia. }
  rewrite Hlen. unfold split_step, effective_max_of.
  change (len []) with 0.
  destruct (m - 0 <=? 0) eqn:E; [lia|].
  destruct (len text - 0 <=? m - 0) eqn:E2; [|lia].
  rewrite slice_from_nonneg by lia. reflexivity.
Qed.

(** X4: a text that fits in the maximum length is returned whole, as the one
    chunk, whatever its markup, and the empty text gives no chunk. *)
Theorem short_text_is_one_chunk (text : str) (max_length : Z) (fuel : nat) :
  len text <= (if max_length <=? 0 then 4096 else max_length) ->
  _smart_split (S fuel) text max_length
  = Some (Ok (match text with [] => [] | _ => [text] end)).
Proof.
  intros Hfit. unfold _smart_split.
  destruct text as [|c text]; [reflexivity|].
  rewrite split_pieces_fits by (congruence || exact Hfit).
  cbn [map]. unfold render. cbn [p_prefix p_raw p_suffix app].
  rewrite app_nil_r. reflexivity.
Qed.

Lemma short_text_is_one_chunk_witness :
  _smart_split 1 (Py.of_string "a *b* `c") 8
  = Some (Ok [Py.of_string "a *b* `c"]).
Proof.
  apply (short_text_is_one_chunk (Py.of_string "a *b* `c") 8 0).
  vm_compute. discriminate.
Defined.

Lemma split_loop_pieces (text : str) (zones : list _ProtectedZone)
    (max_length : Z) (P : piece -> Prop) :
  (forall cp pp p,
      split_step text zones max_length cp pp = Ok (Final p) -> P p) ->
  (forall cp pp p cp' pp',
      split_step text zones max_length cp pp = Ok (Next p cp' pp') -> P p) ->
  forall fuel cp pp chunks ps,
    split_loop fuel text zones max_length cp pp chunks = Some (Ok ps) ->
    Forall P chunks -> Forall P ps.
Proof.
  intros Hfinal Hnext. induction fuel as [|fuel IH]; intros cp pp chunks ps H Hc;
    cbn [split_loop] in H; destruct (cp <? len text);
    try discriminate; try (injection H as <-; assumption).
  destruct (split_step text zones max_length cp pp) as [[p|p cp' pp']|e] eqn:Es;
    [| |discriminate].
  - injection H as <-. apply Forall_app. split; [assumption|].
    constructor; [|constructor]. eapply Hfinal. eassumption.
  - eapply IH; [eassumption|]. apply Forall_app. split; [assumption|].
    constructor; [|constructor]. eapply Hnext. eassumption.
Qed.

Lemma adjust_to_zone_budget (active_zone : option _ProtectedZone)
    (current_pos effective_max split_pos sp : Z) (suffix next_prefix : str) :
  match active_zone with
  | Some z => start z < split_pos
  | None => True
  end ->
  split_pos <= current_pos + effective_max ->
  adjust_to_zone active_zone current_pos effective_max split_pos
  = (sp, suffix, next_prefix) ->
  sp + len suffix <= current_pos + effective_max.
Proof.
  unfold adjust_to_zone. destruct active_zone as [z|];
    [|intros _ H [= <- <- _]; change (len []) with 0; lia].
  intros Hz H. destruct (atomic z).
  - destruct (start z >? current_pos); intros [= <- <- _];
      change (len []) with 0; lia.
  - destruct (_ >? _) eqn:E; intros [= <- <- _]; lia.
Qed.

Lemma slice_length_le (text : str) (a b : Z) :
  a <= b -> len (Py.slice text a b) <= b - a.
Proof.
  intros H. unfold Py.slice, Py.clamp.
  pose proof (len_nonneg text) as Hn. unfold Py.len in *.
  rewrite length_firstn, length_skipn.
  destruct (a <? 0) eqn:Ea; destruct (b <? 0) eqn:Eb; lia.
Qed.

Lemma slice_from_length_le (text : str) (a : Z) :
  a <= len text -> len (Py.slice_from text a) <= len text - a.
Proof.
  intros H. unfold Py.slice_from, Py.clamp.
  pose proof (len_nonneg text) as Hn. unfold Py.len in *.
  rewrite length_skipn. destruct (a <? 0) eqn:Ea; lia.
Qed.

Lemma len_app (s t : str) : len (s ++ t) = len s + len t.
Proof. unfold Py.len. rewrite length_app. lia. Qed.

(** X7: a chunk whose span runs forward and whose reopening prefix is
    shorter than the maximum length is at most the maximum long, the
    prefix and the closing suffix included, also when its span starts
    at a negative position, which Python counts from the end. *)
Theorem chunk_within_max_length (fuel : nat) (text : str) (max_length : Z)
    (ps : list piece) (p : piece) :
  split_pieces fuel text max_length = Some (Ok ps) -> In p ps ->
  p_from p <= p_to p ->
  len (p_prefix p) < (if max_length <=? 0 then 4096 else max_length) ->
  len (render p) <= (if max_length <=? 0 then 4096 else max_length).
Proof.
  unfold split_pieces. set (m := if max_length <=? 0 then 4096 else max_length).
  intros H Hin.
  assert (Hall : Forall (fun p => p_from p <= p_to p ->
                           len (p_prefix p) < m -> len (render p) <= m) ps);
    [|rewrite Forall_forall in Hall; exact (Hall p Hin)].
  clear p Hin.
  eapply split_loop_pieces; [| |exact H|constructor].
  - intros cp pp p Hs Hfrom Hpp.
    pose proof (split_step_final _ _ _ _ _ _ Hs) as (Hf & Ht & Hr & Hp & Hsuf).
    unfold split_step in Hs.
    destruct (len text - cp <=? effective_max_of m pp) eqn:E.
    2:{ destruct (walk_back _ _ _ _); [|discriminate].
        destruct (adjust_to_zone _ _ _ _) as [[? ?] ?].
        destruct (lookback _ _ _ _ _) as [[? ?]|]; discriminate. }
    unfold render. rewrite Hp, Hr, Hsuf, app_nil_r, len_app.
    pose proof (slice_from_length_le text cp ltac:(lia)) as Hraw.
    rewrite Hp in Hpp. unfold effective_max_of in E.
    destruct (m - len pp <=? 0) eqn:E0; lia.
  - intros cp pp p cp' pp' Hs Hfrom Hpp.
    pose proof (split_step_next _ _ _ _ _ _ _ _ Hs) as (Hf & Ht & Hr & Hp & _).
    unfold split_step in Hs.
    destruct (len text - cp <=? effective_max_of m pp); [discriminate|].
    destruct (walk_back _ _ _ _) as [r|] eqn:Ew; [|discriminate].
    apply walk_back_le in Ew.
    destruct (adjust_to_zone _ _ _ _) as [[sp suffix] next_prefix] eqn:Ea.
    apply adjust_to_zone_budget in Ea; [|apply active_zone_at_start|lia].
    destruct (lookback _ _ _ _ _) as [[best found]|] eqn:El; [|discriminate].
    apply lookback_le in El.
    injection Hs as <- <- <-.
    cbn [p_from p_to p_prefix p_raw p_suffix] in *.
    unfold render. cbn [p_prefix p_raw p_suffix]. rewrite !len_app.
    assert (Hraw := slice_length_le text cp (if found then best else sp) Hfrom).
    unfold effective_max_of in Ea.
    destruct (m - len pp <=? 0) eqn:E0; [lia|].
    destruct found; lia.
Qed.

Lemma adjust_to_zone_handoff (zones : list _ProtectedZone)
    (current_pos effective_max split_pos sp : Z) (suffix next_prefix : str) :
  adjust_to_zone (active_zone_at zones split_pos) current_pos effective_max
                 split_pos = (sp, suffix, next_prefix) ->
  handoff zones suffix next_prefix.
Proof.
  unfold adjust_to_zone.
  destruct (active_zone_at zones split_pos) as [z|] eqn:Ez;
    [|intros [= _ <- <-]; left; auto].
  apply active_zone_at_in in Ez. destruct Ez as [Hin _].
  destruct (atomic z) eqn:Eat.
  - destruct (start z >? current_pos); intros [= _ <- <-]; left; auto.
  - destruct (_ >? _); intros [= _ <- <-]; right; exists z;
      repeat split; assumption.
Qed.

Lemma split_loop_linked (text : str) (zones : list _ProtectedZone)
    (max_length : Z) :
  forall fuel cp pp chunks ps,
    split_loop fuel text zones max_length cp pp chunks = Some (Ok ps) ->
    exists rest, ps = chunks ++ rest /\ linked zones pp rest.
Proof.
  induction fuel as [|fuel IH]; intros cp pp chunks ps H;
    cbn [split_loop] in H; destruct (cp <? len text); try discriminate;
    try (injection H as <-; exists []; rewrite app_nil_r; split;
         [reflexivity|exact I]).
  destruct (split_step text zones max_length cp pp) as [[p|p cp' pp']|e] eqn:Es;
    [| |discriminate].
  - injection H as <-. exists [p]. split; [reflexivity|].
    apply split_step_final in Es. destruct Es as (_ & _ & _ & Hp & Hs).
    split; [assumption|]. exists []. split; [left; auto|exact I].
  - apply IH in H. destruct H as (rest & -> & Hl).
    exists (p :: rest). rewrite <- app_assoc. split; [reflexivity|].
    pose proof (split_step_next _ _ _ _ _ _ _ _ Es) as (_ & _ & _ & Hp & _).
    split; [assumption|]. exists pp'. split; [|assumption].
    unfold split_step in Es.
    destruct (_ <=? _); [discriminate|].
    destruct (walk_back _ _ _ _) as [r|]; [|discriminate].
    destruct (adjust_to_zone _ _ _ _) as [[sp suffix] next_prefix] eqn:Ea.
    apply adjust_to_zone_handoff in Ea.
    destruct (lookback _ _ _ _ _) as [[best found]|]; [|discriminate].
    injection Es as <- _ <-. exact Ea.
Qed.

Lemma linked_consecutive (zones : list _ProtectedZone) :
  forall ps pending k p q,
    linked zones pending ps ->
    nth_error ps k = Some p -> nth_error ps (S k) = Some q ->
    handoff zones (p_suffix p) (p_prefix q).
Proof.
  induction ps as [|p0 ps IH]; intros pending k p q Hl Hp Hq;
    [destruct k; discriminate|].
  destruct Hl as (_ & next & Hh & Hl).
  destruct k as [|k].
  - injection Hp as <-. cbn [nth_error] in Hq.
    destruct ps as [|q0 ps]; [discriminate|]. injection Hq as <-.
    destruct Hl as [<- _]. assumption.
  - cbn [nth_error] in Hp, Hq. eapply IH; eassumption.
Qed.

(** X8: the first chunk starts with no added markup, and whatever a chunk
    adds at its end is matched at the start of the next: either both add
    nothing, or the first closes a zone that may be split (with a newline
    before the closing fence of a fenced block) and the next reopens that
    zone with its opening tag (followed by a newline for a fenced block). *)
Theorem chunks_hand_over_markup (fuel : nat) (text : str) (max_length : Z)
    (ps : list piece) :
  split_pieces fuel text max_length = Some (Ok ps) ->
  (forall p, nth_error ps 0 = Some p -> p_prefix p = [])
  /\ (forall k p q,
        nth_error ps k = Some p -> nth_error ps (S k) = Some q ->
        handoff (_find_zones text) (p_suffix p) (p_prefix q)).
Proof.
  unfold split_pieces. intros H. apply split_loop_linked in H.
  destruct H as (rest & -> & Hl). cbn [app]. split.
  - intros p Hp. destruct rest as [|p0 rest]; [discriminate|].
    injection Hp as <-. destruct Hl as [H _]. exact H.
  - intros k p q. eapply linked_consecutive. eassumption.
Qed.

(** ** The public entry points on a text of one chunk *)

Lemma retry_loop_counts (A : Type)
    (remote_call : str -> nat -> result A * nat) (chunk : str)
    (max_retries : Z) (r : A) :
  forall failures k attempt last calls slept,
    (forall i, (i < failures)%nat ->
       exists e, remote_call chunk (calls + i)%nat = (Raise e, S (calls + i))
                 /\ exn_class e = YandexRequestError) ->
    remote_call chunk (calls + failures)%nat = (Ok r, S (calls + failures)) ->
    0 <= attempt -> attempt + Z.of_nat failures <= 1024 ->
    attempt + Z.of_nat failures < max_retries -> (failures < k)%nat ->
    retry_loop remote_call k chunk max_retries attempt last (calls, slept)
    = (Ok r, (S (calls + failures), slept ++ request_delays attempt failures)).
Proof.
  induction failures as [|failures IH];
    intros k attempt last calls slept Hfail Hok Ha H1024 Hmax Hk;
    (destruct k as [|k]; [lia|]); cbn [retry_loop fst snd].
  - rewrite Nat.add_0_r in *. rewrite Hok. unfold request_delays.
    cbn [seq map]. now rewrite app_nil_r.
  - destruct (Hfail 0%nat ltac:(lia)) as (e & Hcall & Hclass).
    rewrite Nat.add_0_r in Hcall. rewrite Hcall, Hclass.
    cbn [recognized]. rewrite error_delay_in_range by lia.
    destruct (attempt <? max_retries - 1) eqn:E; [|lia].
    rewrite (IH k (attempt + 1) (Some e) (S calls)); try lia.
    + rewrite request_delays_cons, <- app_assoc, Hclass.
      replace (S calls + failures)%nat with (calls + S failures)%nat by lia.
      reflexivity.
    + intros i Hi. destruct (Hfail (S i) ltac:(lia)) as (e' & H & Hc).
      exists e'. replace (S calls + i)%nat with (calls + S i)%nat by lia.
      split; assumption.
    + replace (S calls + failures)%nat with (calls + S failures)%nat by lia.
      exact Hok.
Qed.

Section PublicFurther.

Variable lower : str -> str.
Variable json_repr : json -> string.
Variable answers : nat -> remote.

(** X21: a text of 1 to 10000 characters is translated as one chunk: when the
    first calls fail with a YandexRequestError, fewer than three of them,
    and the next one answers, [translate] returns that answer as it is,
    after one call more than the failures, having slept 2 s after the
    first failure and 4 s after the second. *)
Theorem translate_short_text (text : str) (fuel calls failures : nat)
    (slept : list Q) (s : string) :
  text <> [] -> len text <= 10000 -> (failures < 3)%nat ->
  (forall i, (i < failures)%nat ->
     exists e, _yandex_translate lower json_repr text (answers (calls + i)%nat)
               = Raise e
               /\ exn_class e = YandexRequestError) ->
  _yandex_translate lower json_repr text (answers (calls + failures)%nat)
  = Ok s ->
  translate lower json_repr answers (S fuel) text (calls, slept)
  = Some (Ok s, (S (calls + failures), slept ++ firstn failures [2; 4]%Q)).
Proof.
  intros Hne Hlen Hf Hfail Hok.
  unfold translate, _yandex_translate_batch, _yandex_batch.
  unfold _smart_split. rewrite split_pieces_fits by assumption.
  cbn [map]. unfold render. cbn [p_prefix p_raw p_suffix app].
  rewrite app_nil_r.
  unfold run_batch. cbn [batch_loop List.length]. unfold chunk_with_retry.
  rewrite (retry_loop_counts string (translate_transform lower json_repr answers)
             text _MAX_RETRIES s failures); try (unfold _MAX_RETRIES; lia).
  - cbn [batch_loop app]. unfold join_translated. cbn [String.concat].
    do 3 f_equal.
    destruct failures as [|[|[|?]]]; try lia; reflexivity.
  - intros i Hi. destruct (Hfail i Hi) as (e & He & Hc). exists e.
    unfold translate_transform. now rewrite He.
  - unfold translate_transform. now rewrite Hok.
Qed.

(** X22: a text of 1 to 10000 characters is edited as one chunk, after
    fewer than three failures with a YandexRequestError: [transform]
    returns the value of the field "result_text" of the answer when it is
    a string; any other truthy value, which [_yandex_editor_api] lets
    through, makes the final join raise its TypeError on the item 0, with
    the name of the type of the value, after the calls and the sleeps. *)
Theorem transform_short_text (text : str) (fuel calls failures : nat)
    (slept : list Q) (v : json) :
  text <> [] -> len text <= 10000 -> (failures < 3)%nat ->
  (forall i, (i < failures)%nat ->
     exists e, _yandex_editor_api lower json_repr text (answers (calls + i)%nat)
               = Raise e
               /\ exn_class e = YandexRequestError) ->
  _yandex_editor_api lower json_repr text (answers (calls + failures)%nat)
  = Ok v ->
  transform lower json_repr answers (S fuel) text (calls, slept)
  = Some (match v with
          | JStr s => Ok s
          | _ => Raise (mkExn TypeError
                          ("sequence item 0: expected str instance, "
                             ++ type_name v ++ " found"))
          end,
          (S (calls + failures), slept ++ firstn failures [2; 4]%Q)).
Proof.
  intros Hne Hlen Hf Hfail Hok.
  unfold transform, _yandex_editor_batch, _yandex_batch.
  unfold _smart_split. rewrite split_pieces_fits by assumption.
  cbn [map]. unfold render. cbn [p_prefix p_raw p_suffix app].
  rewrite app_nil_r.
  unfold run_batch. cbn [batch_loop List.length]. unfold chunk_with_retry.
  rewrite (retry_loop_counts json (editor_transform lower json_repr answers)
             text _MAX_RETRIES v failures); try (unfold _MAX_RETRIES; lia).
  - cbn [batch_loop app]. unfold join_edited, join_strings.
    f_equal. f_equal.
    + destruct v; try reflexivity. cbn [join_from].
      now rewrite string_app_empty_r.
    + f_equal. f_equal.
      destruct failures as [|[|[|?]]]; try lia; reflexivity.
  - intros i Hi. destruct (Hfail i Hi) as (e & He & Hc). exists e.
    unfold editor_transform. now rewrite He.
  - unfold editor_transform. now rewrite Hok.
Qed.

End PublicFurther.

(** ** Examples *)

(** A transform that fails on its first call and answers from the second
    on: one sleep of 2 s, and two calls. *)
Lemma retry_recovers_witness :
  let call := fun (_ : str) (w : nat) =>
                match w with
                | O => (Raise request_down, 1%nat)
                | S _ => (Ok "ok"%string, S w)
                end in
  chunk_with_retry call (Py.of_string "a") 3 (0%nat, [])
  = (Ok "ok"%string, (2%nat, [] ++ backoff_delays [request_down] 0)).
Proof.
  intros call.
  apply (retry_recovers nat string call (Py.of_string "a") 3 [request_down]
           (0%nat, []) "ok"%string 2%nat).
  - exists 1%nat. split; [reflexivity|]. split; reflexivity.
  - simpl. lia.
  - simpl. lia.
Defined.

(** A transform that always fails: three calls and two sleeps. *)
Lemma retry_effort_bounded_witness :
  exists delays,
    [2; 4]%Q = [] ++ delays
    /\ Z.of_nat (List.length delays) <= Z.max 0 (3 - 1)
    /\ Forall (fun d => 1 <= d /\ d <= 30)%Q delays
    /\ (0 <= 3)%nat
    /\ Z.of_nat 3 <= Z.of_nat 0 + Z.max 0 3.
Proof.
  apply (retry_effort_bounded unit string always_down (Py.of_string "a") 3
           ((tt, 0%nat), []) ((tt, 3%nat), [2; 4]%Q) (Raise request_down)).
  reflexivity.
Defined.

(** Three chunks, the second of which cannot be transformed. *)
Lemma batch_failure_located_witness :
  let chunks := [Py.of_string "a"; Py.of_string "b"; Py.of_string "c"] in
  let e := mkExn YandexRequestError
             ("down" ++ lf ++ "[было переведено 1/3 чанков]") in
  exists done failing rest results st1 e0,
    chunks = done ++ failing :: rest
    /\ transformed down_on_b done 3 (tt, []) results st1
    /\ chunk_with_retry down_on_b failing 3 st1 = (Raise e0, (tt, [2; 4]%Q))
    /\ (List.length done < List.length chunks)%nat
    /\ exn_class e = exn_class e0
    /\ (recognized (exn_class e0) = true ->
        e = progress_note "было переведено" e0 (List.length done)
                          (List.length chunks))
    /\ (recognized (exn_class e0) = false -> e = e0).
Proof.
  intros chunks e.
  apply (batch_failure_located unit string down_on_b "было переведено" chunks 3
           (tt, []) (tt, [2; 4]%Q) e).
  reflexivity.
Defined.

Lemma batch_without_attempts_witness :
  let type_error := mkExn TypeError "exceptions must derive from BaseException" in
  chunk_with_retry always_down (Py.of_string "a") 0 (tt, [])
  = (Raise type_error, (tt, []))
  /\ run_batch always_down join_translated "было переведено"
       [Py.of_string "a"; Py.of_string "b"] 0 (tt, [])
     = (Raise type_error, (tt, [])).
Proof.
  apply (batch_without_attempts unit string always_down join_translated
           "было переведено" (Py.of_string "a") [Py.of_string "b"] 0 (tt, [])).
  lia.
Defined.

(** A fenced block with a language. *)
Lemma zones_have_a_shape_witness :
  let text := Py.of_string "```py" ++ [newline] ++ Py.of_string "x```" in
  let z := mkZone 0 10 (Py.of_string "```py") fence true false in
  zone_shape text z
  /\ occurs_at text (open_tag z) (start z)
  /\ occurs_at text (close_tag z) (end_ z - len (close_tag z)).
Proof.
  intros text z. apply (zones_have_a_shape text z). left. reflexivity.
Defined.

(** An inline code between two words, with a maximum length of 4. *)
Lemma split_of_atomic_text_witness :
  let text := Py.of_string "ab `cd` ef" in
  let m := if 4 <=? 0 then 4096 else 4 in
  exists chunks,
    _smart_split (List.length text) text 4 = Some (Ok chunks)
    /\ List.concat chunks = text
    /\ Forall (fun chunk => 1 <= len chunk <= m) chunks.
Proof.
  intros text.
  apply (split_of_atomic_text text 4).
  - lia.
  - repeat constructor.
Defined.

(** With a maximum length of 2, [a\*b] is not cut after its backslash. *)
Lemma chunks_do_not_split_escapes_witness :
  let text := Py.of_string "a\*b" in
  exists ps,
    split_pieces (List.length text) text 2 = Some (Ok ps)
    /\ Forall (fun p => 0 <= p_from p < p_to p /\ p_to p <= len text
                        /\ (p_to p < len text ->
                            _is_escaped text (p_to p) = false)) ps.
Proof.
  intros text.
  apply (chunks_do_not_split_escapes text 2).
  - lia.
  - constructor.
Defined.

(** The split of a space followed by six backticks, for a maximum length
    of 6, goes back to the position -1; its third chunk takes the part of
    the text from -1 to 1, which is empty, after a prefix of four
    characters. *)
Lemma chunk_within_max_length_witness :
  len (render (mkPiece (fence ++ [newline]) (-1) 1 [] []))
  <= (if 6 <=? 0 then 4096 else 6).
Proof.
  apply (chunk_within_max_length 20 (Py.of_string " ``````") 6
           [mkPiece [] 0 1 [space] (newline :: fence);
            mkPiece (fence ++ [newline]) 1 (-1)
                    (Py.of_string "`````") (newline :: fence);
            mkPiece (fence ++ [newline]) (-1) 1 [] [];
            mkPiece [] 1 7 (Py.of_string "``````") []]).
  - reflexivity.
  - right. right. left. reflexivity.
  - simpl. lia.
  - reflexivity.
Defined.

Lemma chunks_hand_over_markup_witness :
  let text := Py.of_string "aa *bb cc* dd" in
  let ps := [mkPiece [] 0 3 (Py.of_string "aa ") [star];
             mkPiece [star] 3 7 (Py.of_string "*bb ") [star];
             mkPiece [star] 7 11 (Py.of_string "cc* ") [];
             mkPiece [] 11 13 (Py.of_string "dd") []] in
  (forall p, nth_error ps 0 = Some p -> p_prefix p = [])
  /\ (forall k p q,
        nth_error ps k = Some p -> nth_error ps (S k) = Some q ->
        handoff (_find_zones text) (p_suffix p) (p_prefix q)).
Proof.
  intros text ps.
  apply (chunks_hand_over_markup 20 text 6 ps). reflexivity.
Defined.

Lemma split_covers_when_forward_witness :
  let text := Py.of_string "aa *bb cc* dd" in
  let ps := [mkPiece [] 0 3 (Py.of_string "aa ") [star];
             mkPiece [star] 3 7 (Py.of_string "*bb ") [star];
             mkPiece [star] 7 11 (Py.of_string "cc* ") [];
             mkPiece [] 11 13 (Py.of_string "dd") []] in
  List.concat (map p_raw ps) = text.
Proof.
  intros text ps.
  apply (split_covers_when_forward 20 text 6 ps).
  - reflexivity.
  - repeat constructor; simpl; lia.
Defined.

(** The service fails on the first request and translates on the second. *)
Lemma translate_short_text_witness :
  let answers := fun n : nat =>
                   match n with
                   | O => mkRemote (Ok (Some "sid"%string))
                                   (Raise (mkExn (OtherException "HTTPStatusError")
                                                 "503"))
                                   (Ok JNull)
                   | S _ => mkRemote (Ok (Some "sid"%string)) (Ok tt)
                                     (Ok (JDict [("text", JList [JStr "привет"])]))
                   end%string in
  translate (fun t => t) (fun _ => "{}"%string) answers 1
            (Py.of_string "hello") (0%nat, [])
  = Some (Ok "привет"%string, (2%nat, [] ++ firstn 1 [2; 4]%Q)).
Proof.
  intros answers.
  apply (translate_short_text (fun t => t) (fun _ => "{}"%string) answers
           (Py.of_string "hello") 0 0 1 [] "привет"%string).
  - discriminate.
  - vm_compute. discriminate.
  - lia.
  - intros i Hi. destruct i as [|i]; [|lia].
    eexists. split; reflexivity.
  - reflexivity.
Defined.

(** The editor answers with a number in "result_text": it is let through
    by [_yandex_editor_api] and the join raises. *)
Lemma transform_short_text_witness :
  let answers := fun _ : nat =>
                   mkRemote (Ok (Some "sid"%string)) (Ok tt)
                            (Ok (JDict [("result_text"%string, JNum 5)])) in
  transform (fun t => t) (fun _ => "{}"%string) answers 1
            (Py.of_string "hello") (0%nat, [])
  = Some (Raise (mkExn TypeError
                   "sequence item 0: expected str instance, int found"),
          (1%nat, [] ++ firstn 0 [2; 4]%Q)).
Proof.
  intros answers.
  apply (transform_short_text (fun t => t) (fun _ => "{}"%string) answers
           (Py.of_string "hello") 0 0 0 [] (JNum 5)).
  - discriminate.
  - vm_compute. discriminate.
  - lia.
  - intros i Hi. lia.
  - reflexivity.
Defined.
